(** * Verification of the daily-quote fetcher and typewriter renderer of
    MyHome ([src/script.js], [setupTypewriterEffect], [fetchDailyQuote],
    [startTypewriterAnimation], [startCursorBlink]).

    JavaScript strings are sequences of UTF-16 code units; a string is
    modelled as [list Z], one element per code unit, so that [length],
    indexing [s[i]] and [substring] mean what they mean in JavaScript. *)

From Stdlib Require Import Ascii String ZArith List Bool Lia QArith Qround Lqa.
Import ListNotations.
Open Scope Z_scope.

Module Text.

(** ** Character classes used by the regular expressions *)

(** ECMAScript [WhiteSpace] and [LineTerminator]: the characters removed
    by [String.prototype.trim] and matched by the regex class [\s]. *)
Definition is_js_space (c : Z) : bool :=
  (c =? 9) || (c =? 10) || (c =? 11) || (c =? 12) || (c =? 13)
  || (c =? 32) || (c =? 160) || (c =? 5760)
  || ((8192 <=? c) && (c <=? 8202))
  || (c =? 8232) || (c =? 8233) || (c =? 8239) || (c =? 8287)
  || (c =? 12288) || (c =? 65279).

(** The regex class [[\r\n\t]]. *)
Definition is_crlf_tab (c : Z) : bool := (c =? 13) || (c =? 10) || (c =? 9).

(** The regex class of the double-quote replacement as written in the
    source: both of its members are the straight double quote U+0022. *)
Definition dq_class : list Z := [34; 34].
(** The regex class of the single-quote replacement as written in the
    source: both of its members are the straight single quote U+0027. *)
Definition sq_class : list Z := [39; 39].

Definition memZ (c : Z) (l : list Z) : bool := existsb (Z.eqb c) l.

(** ** The sanitisation pipeline *)

Fixpoint drop_while (p : Z -> bool) (s : list Z) : list Z :=
  match s with
  | [] => []
  | c :: r => if p c then drop_while p r else s
  end.

(** [s.trim()]: strip leading, then trailing, white space. *)
Definition trim (s : list Z) : list Z :=
  rev (drop_while is_js_space (rev (drop_while is_js_space s))).

(** [s.replace(/[\r\n\t]/g, SPACE)] *)
Definition replace_crlf_tab (s : list Z) : list Z :=
  map (fun c => if is_crlf_tab c then 32 else c) s.

(** [s.replace(/\s+/g, SPACE)]: every maximal run of white space becomes one
    space; [in_run] records that the previous code unit was white space. *)
Fixpoint collapse_aux (in_run : bool) (s : list Z) : list Z :=
  match s with
  | [] => []
  | c :: r =>
      if is_js_space c
      then if in_run then collapse_aux true r else 32 :: collapse_aux true r
      else c :: collapse_aux false r
  end.

Definition collapse_ws (s : list Z) : list Z := collapse_aux false s.

(** [s.replace(/[cls]/g, rep)] for a one-character class. *)
Definition replace_class (cls : list Z) (rep : Z) (s : list Z) : list Z :=
  map (fun c => if memZ c cls then rep else c) s.

(** The cleaning chain of [fetchDailyQuote]: trim, replace each of
    [\r \n \t] by a space, replace each [\s+] run by a space, then the two
    quote replacements, whose classes hold only U+0022 and only U+0027. *)
Definition sanitize (quote : list Z) : list Z :=
  replace_class sq_class 39
    (replace_class dq_class 34
       (collapse_ws (replace_crlf_tab (trim quote)))).

(** ** Truncation *)

Definition maxLength : nat := 60.

(** The full stop, exclamation and question marks, ASCII (U+002E, U+0021,
    U+003F) and full-width (U+3002, U+FF01, U+FF1F). *)
Definition cutPoints : list Z := [46; 33; 63; 12290; 65281; 65311].

(** [cutPoints.includes(cleanQuote[i])]; an index past the end reads
    [undefined], which is not included. *)
Definition includes_at (s : list Z) (i : nat) : bool :=
  match nth_error s i with
  | Some c => memZ c cutPoints
  | None => false
  end.

(** The loop [for (let i = from; ...; i++)] run for [n] iterations; it
    returns the final value of [cutIndex] (initially [-1]). *)
Fixpoint scan_cut (s : list Z) (i n : nat) : Z :=
  match n with
  | O => -1
  | S n' => if includes_at s i then Z.of_nat (i + 1) else scan_cut s (S i) n'
  end.

(** The length-limiting block of [fetchDailyQuote]. *)
Definition truncate (cleanQuote : list Z) : list Z :=
  if Nat.ltb maxLength (length cleanQuote) then
    let cutIndex := scan_cut cleanQuote (maxLength - 10) 10 in
    if 0 <? cutIndex
    then firstn (Z.to_nat cutIndex) cleanQuote
    else firstn (maxLength - 3) cleanQuote ++ [46; 46; 46]
  else cleanQuote.

(** The text a successful fetch returns for the body [quote]. *)
Definition display_quote (quote : list Z) : list Z := truncate (sanitize quote).

End Text.

Module Fetch.
Import Text.

(** ** Errors

    Every failure of [fetchDailyQuote] ends in its [catch] block, which
    rethrows [new Error(error.message)]: what the caller sees is an [Error]
    carrying the message of the original exception. *)
Inductive error := Error (message : string).

Inductive result :=
| Ok (quote : list Z)
| Err (e : error).

(** The response of a resolved [fetch] as far as the code reads it. *)
Record response := mkResponse {
  ok : bool;
  status : Z;
  statusText : string
}.

(** Decimal rendering of a non-negative integer, as in a template literal. *)
Fixpoint digits (fuel : nat) (n : Z) (acc : string) : string :=
  match fuel with
  | O => acc
  | S fuel' =>
      let d := String (Ascii.ascii_of_nat (48 + Z.to_nat (n mod 10))) acc in
      if n <? 10 then d else digits fuel' (n / 10) d
  end.

Definition Z_to_decimal (n : Z) : string :=
  if n <? 0 then String "-"%char (digits 20 (- n) EmptyString)
  else digits 20 n EmptyString.

(** [`HTTP ${response.status}: ${response.statusText}`] *)
Definition http_message (r : response) : string :=
  String.append "HTTP "%string
    (String.append (Z_to_decimal (status r))
       (String.append ": "%string (statusText r))).

(** The message thrown when the body is empty (UTF-8 of the source's
    Chinese text, meaning that the API returned empty content). *)
Definition empty_message : string := "API返回内容为空"%string.

(** ** The asynchronous function as a state machine

    [fetchDailyQuote] suspends at [await fetch(...)] and at
    [await response.text()]; its timeout timer runs independently.  The
    phase records where the function is suspended, or how its promise
    settled. *)
Inductive phase :=
| AwaitFetch                 (* suspended at [await fetch(...)] *)
| AwaitText                  (* suspended at [await response.text()] *)
| Settled (r : result).      (* the returned promise has settled *)

Record fstate := mkFState {
  ph : phase;
  timer : option Z;          (* due time of the pending 5000 ms timeout *)
  aborted : bool             (* [controller.abort()] has been called *)
}.

(** What the network delivers to the suspended function. *)
Inductive net_event :=
| FetchResolved (r : response)   (* the [fetch] promise fulfils *)
| FetchRejected (msg : string)   (* the [fetch] promise rejects *)
| TextResolved (body : list Z)   (* [response.text()] fulfils *)
| TextRejected (msg : string).   (* [response.text()] rejects *)

Section Machine.

(** The message of the [AbortError] with which the platform rejects a
    pending [fetch] (or body read) when its signal is aborted. *)
Variable abort_message : string.

Definition timeout_ms : Z := 5000.

(** Call at time 0: the timeout is armed and [fetch] is issued. *)
Definition start : fstate := mkFState AwaitFetch (Some timeout_ms) false.

(** The catch block: [clearTimeout(timeoutId)], then rethrow. *)
Definition fail (st : fstate) (msg : string) : fstate :=
  mkFState (Settled (Err (Error msg))) None (aborted st).

(** Code after [const quote = await response.text()]. *)
Definition after_text (st : fstate) (quote : list Z) : fstate :=
  if (match quote with [] => true | _ => false end)
     || (length (trim quote) =? 0)%nat
  then fail st empty_message
  else mkFState (Settled (Ok (display_quote quote))) (timer st) (aborted st).

(** The timeout callback: [controller.abort()].  A [fetch] or body read
    still pending on the signal rejects with the platform's [AbortError],
    which the catch block turns into the function's rejection. *)
Definition fire_timer (st : fstate) : fstate :=
  match ph st with
  | AwaitFetch | AwaitText =>
      mkFState (Settled (Err (Error abort_message))) None true
  | Settled r => mkFState (Settled r) None true
  end.

(** Resuming the function with a network outcome.  A promise that is not
    being awaited (or one already rejected by the abort) has no effect. *)
Definition deliver (st : fstate) (ev : net_event) : fstate :=
  match ph st, ev with
  | AwaitFetch, FetchResolved r =>
      (* clearTimeout(timeoutId); if (!response.ok) throw ... *)
      let st1 := mkFState AwaitFetch None (aborted st) in
      if ok r then mkFState AwaitText None (aborted st)
      else fail st1 (http_message r)
  | AwaitFetch, FetchRejected msg => fail st msg
  | AwaitText, TextResolved body => after_text st body
  | AwaitText, TextRejected msg => fail st msg
  | _, _ => st
  end.

(** The event loop: before a network event at time [t], the timeout runs
    if it is due by then (a timer and a network task due at the same
    instant are taken timer first). *)
Definition advance (t : Z) (st : fstate) : fstate :=
  match timer st with
  | Some d => if d <=? t then fire_timer st else st
  | None => st
  end.

Definition step_at (st : fstate) (e : Z * net_event) : fstate :=
  deliver (advance (fst e) st) (snd e).

Definition run_events (st : fstate) (tl : list (Z * net_event)) : fstate :=
  fold_left step_at tl st.

(** After the last network event, a still pending timeout eventually runs. *)
Definition finish (st : fstate) : fstate :=
  match timer st with
  | Some _ => fire_timer st
  | None => st
  end.

Definition run (tl : list (Z * net_event)) : fstate := finish (run_events start tl).

End Machine.

End Fetch.

Module Binary64.

(** ** JavaScript numbers

    A JavaScript number is an IEEE 754 binary64 value.  Every finite one is
    an integer multiple of 2^-1074, and each arithmetic operation rounds its
    exact result to the nearest value whose significand has 53 bits, ties to
    the one with an even significand.  [fl] is that rounding on the exact
    rational result; the results met here are far below the overflow
    threshold, so it is the rounding of the finite range. *)

Definition scale : Z := 2 ^ 1074.

(** The integer nearest to [y], ties to the even one. *)
Definition round_half_even (y : Q) : Z :=
  let f := Qfloor y in
  match Qcompare (y - inject_Z f) (1 # 2) with
  | Lt => f
  | Gt => f + 1
  | Eq => if Z.even f then f else f + 1
  end.

(** For [x >= 0] in units of 2^-1074: the exponent of the spacing of the
    doubles around [x], in the same units.  Below 2^53 units (subnormals
    and the lowest binade of normals) the spacing is one unit; above, a
    binade [2^e, 2^(e+1)) has spacing 2^(e-52). *)
Definition spacing (x : Q) : Z := Z.max 0 (Z.log2 (Qfloor x) - 52).

Definition pw (k : Z) : Q := inject_Z (2 ^ k).

(** [x], in units of 2^-1074, rounded to the nearest double (still in
    units of 2^-1074). *)
Definition round_units (x : Q) : Z :=
  round_half_even (x / pw (spacing x)) * 2 ^ spacing x.

Definition fl_nonneg (q : Q) : Q :=
  (inject_Z (round_units (q * inject_Z scale)) / inject_Z scale)%Q.

(** The double nearest to the exact result [q]. *)
Definition fl (q : Q) : Q :=
  if Qle_bool 0 q then fl_nonneg q else (- fl_nonneg (- q))%Q.

End Binary64.

Module Typewriter.
Import Text Binary64.

(** ** The target element and the timers of the page

    [startTypewriterAnimation] and [startCursorBlink] write the target
    element and schedule callbacks with [setTimeout] and [setInterval].
    Each callback is a closure; the state it captures ([currentIndex] of a
    typing session, [isVisible] and [blinkCount] of a blink loop, the
    [blinkInterval] handle of the 30 s stop) is read and written only by
    that callback, so it is kept in the pending timer itself. *)
Inductive task :=
| TypeTick (text : list Z) (currentIndex : nat)    (* setTimeout(typeNextChar, delay) *)
| FlashOff                                         (* setTimeout(() => borderRight = none, 80) *)
| BlinkTick (isVisible : bool) (blinkCount : nat)  (* setInterval(blink, 500) *)
| BlinkStop (blinkInterval : nat).                 (* setTimeout(() => clearInterval(...), 30000) *)

(** A pending timer: its handle, the sequence number of its current
    scheduling (which orders timers due at the same instant), the time it
    is due and its callback. *)
Record timer := mkTimer {
  tm_id : nat;
  tm_seq : nat;
  tm_due : Z;
  tm_task : task
}.

Record world := mkWorld {
  content : list Z;      (* element.textContent *)
  border : bool;         (* element.style.borderRight: true = 2px solid, false = none *)
  typing : bool;         (* the [typing] class *)
  timers : list timer;   (* pending timers, in scheduling order *)
  clock : Z;             (* current time in ms *)
  next_id : nat;         (* next handle / sequence number *)
  rng : list Q           (* values [Math.random()] returns next *)
}.

Definition set_content (w : world) (c : list Z) : world :=
  mkWorld c (border w) (typing w) (timers w) (clock w) (next_id w) (rng w).
Definition set_border (w : world) (b : bool) : world :=
  mkWorld (content w) b (typing w) (timers w) (clock w) (next_id w) (rng w).
Definition set_typing (w : world) (b : bool) : world :=
  mkWorld (content w) (border w) b (timers w) (clock w) (next_id w) (rng w).
Definition set_timers (w : world) (l : list timer) : world :=
  mkWorld (content w) (border w) (typing w) l (clock w) (next_id w) (rng w).
Definition set_clock (w : world) (t : Z) : world :=
  mkWorld (content w) (border w) (typing w) (timers w) t (next_id w) (rng w).

(** [Math.random()]: the next value of the random source (0 once the
    supplied values are used up). *)
Definition random (w : world) : Q * world :=
  match rng w with
  | r :: rs => (r, mkWorld (content w) (border w) (typing w) (timers w) (clock w) (next_id w) rs)
  | [] => (0%Q, w)
  end.

(** [setTimeout(cb, delay)] (and the first scheduling of [setInterval]):
    a fresh handle, due [delay] ms from now (a negative delay counts as 0). *)
Definition set_timeout (w : world) (delay : Z) (t : task) : nat * world :=
  let id := next_id w in
  (id, mkWorld (content w) (border w) (typing w)
         (timers w ++ [mkTimer id id (clock w + Z.max 0 delay) t])
         (clock w) (S id) (rng w)).

(** The delay argument of [setTimeout] is converted to a [long]: the
    fractional part of a non-negative delay is dropped. *)
Definition to_long (q : Q) : Z := Qfloor q.

(** ** The typing speed *)

(** The regex class of the pause characters: the full-width comma, full
    stop, exclamation and question marks, the ideographic comma, and the
    full-width semicolon and colon (U+FF0C U+3002 U+FF01 U+FF1F U+3001
    U+FF1B U+FF1A). *)
Definition pause_class : list Z := [65292; 12290; 65281; 65311; 12289; 65307; 65306].

(** [/[a-zA-Z]/] *)
Definition is_ascii_letter (c : Z) : bool :=
  ((65 <=? c) && (c <=? 90)) || ((97 <=? c) && (c <=? 122)).

(** The [delay] computed for the just-revealed code unit [c]; the random
    branches draw one value of [Math.random()].  [Math.random() * 30 + 70]
    is two double operations, each rounded. *)
Definition next_delay (c : Z) (w : world) : Q * world :=
  if c =? 32 then (50%Q, w)
  else if memZ c pause_class then (200%Q, w)
  else if is_ascii_letter c then let (r, w') := random w in (fl (fl (r * 30) + 70), w')
  else let (r, w') := random w in (fl (fl (r * 40) + 90), w').

(** ** [startCursorBlink] *)

Definition startCursorBlink (w : world) : world :=
  let (blinkInterval, w1) := set_timeout w 500 (BlinkTick true 0) in
  snd (set_timeout w1 30000 (BlinkStop blinkInterval)).

(** The interval callback [blink]: returns the element and the new values
    of [isVisible] and [blinkCount]. *)
Definition blink (isVisible : bool) (blinkCount : nat) (w : world)
  : world * (bool * nat) :=
  let w1 := set_border w isVisible in
  let blinkCount' := S blinkCount in
  if Nat.ltb 120 blinkCount'
  then (set_border w1 false, (negb isVisible, blinkCount'))
  else (w1, (negb isVisible, blinkCount')).

(** ** [typeNextChar] and [startTypewriterAnimation] *)

Definition typeNextChar (text : list Z) (currentIndex : nat) (w : world) : world :=
  if Nat.ltb currentIndex (length text) then
    let c := nth currentIndex text 0 in
    let w1 := set_content w (firstn (S currentIndex) text) in
    let (delay, w2) := next_delay c w1 in
    let w3 := snd (set_timeout w2 (to_long delay) (TypeTick text (S currentIndex))) in
    let (r, w4) := random w3 in
    (* [Math.random() > 0.8]: the literal is the double nearest 0.8 *)
    if Qlt_le_dec (fl (8 # 10)) r
    then snd (set_timeout (set_border w4 true) 80 FlashOff)
    else w4
  else startCursorBlink (set_typing w false).

(** [gsap.killTweensOf(element)] stops the tweens GSAP runs on the element;
    the typing and blinking callbacks are plain timers, not tweens, and
    are left untouched by it. *)
Definition startTypewriterAnimation (text : list Z) (w : world) : world :=
  typeNextChar text 0 (set_typing (set_border (set_content w []) false) true).

(** ** The event loop *)

(** Timer [a] runs before timer [b]: due earlier, or due at the same
    instant and scheduled earlier. *)
Definition earlier (a b : timer) : bool :=
  (tm_due a <? tm_due b)
  || ((tm_due a =? tm_due b) && Nat.ltb (tm_seq a) (tm_seq b)).

Fixpoint earliest (l : list timer) : option timer :=
  match l with
  | [] => None
  | t :: r =>
      match earliest r with
      | Some u => if earlier u t then Some u else Some t
      | None => Some t
      end
  end.

(** [clearTimeout(id)] / [clearInterval(id)] *)
Definition remove_timer (id : nat) (l : list timer) : list timer :=
  filter (fun t => negb (Nat.eqb (tm_id t) id)) l.

Definition run_task (tm : timer) (w : world) : world :=
  match tm_task tm with
  | TypeTick text i => typeNextChar text i w
  | FlashOff => set_border w false
  | BlinkTick v c =>
      let (w1, vc) := blink v c w in
      (* the interval is due again 500 ms later *)
      mkWorld (content w1) (border w1) (typing w1)
        (timers w1 ++ [mkTimer (tm_id tm) (next_id w1) (clock w1 + 500)
                         (BlinkTick (fst vc) (snd vc))])
        (clock w1) (S (next_id w1)) (rng w1)
  | BlinkStop iid => set_border (set_timers w (remove_timer iid (timers w))) false
  end.

(** One turn of the event loop: the earliest pending timer runs. *)
Definition step (w : world) : option world :=
  match earliest (timers w) with
  | None => None
  | Some tm =>
      Some (run_task tm (set_clock (set_timers w (remove_timer (tm_id tm) (timers w)))
                                   (tm_due tm)))
  end.

(** What can happen to the page: a turn of the event loop, or a call of
    [startTypewriterAnimation] on the target. *)
Inductive action :=
| Step
| Render (text : list Z).

Definition act (w : world) (a : action) : world :=
  match a with
  | Step => match step w with Some w' => w' | None => w end
  | Render text => startTypewriterAnimation text w
  end.

Definition run_actions (w : world) (acts : list action) : world := fold_left act acts w.

End Typewriter.

Module FetchConfig.

(** ** The endpoint chosen by [fetchDailyQuote] *)

Record apiConfig := mkApiConfig {
  url : string;
  name : string
}.

(** [apiConfigs], in the order of the source (the categories literature,
    poetry, philosophy, internet and original). *)
Definition apiConfigs : list apiConfig := [
  mkApiConfig "https://v1.hitokoto.cn/?c=d&encode=text"%string "文学"%string;
  mkApiConfig "https://v1.hitokoto.cn/?c=i&encode=text"%string "诗词"%string;
  mkApiConfig "https://v1.hitokoto.cn/?c=k&encode=text"%string "哲学"%string;
  mkApiConfig "https://v1.hitokoto.cn/?c=f&encode=text"%string "网络"%string;
  mkApiConfig "https://v1.hitokoto.cn/?c=e&encode=text"%string "原创"%string
].

(** [apiConfigs[k]] for an integer [k]: [undefined] ([None]) outside the
    array. *)
Definition js_index {A : Type} (l : list A) (k : Z) : option A :=
  if k <? 0 then None else nth_error l (Z.to_nat k).

(** [apiConfigs[Math.floor(Math.random() * apiConfigs.length)]] for the
    value [r] of [Math.random()]; the product is rounded to a double. *)
Definition randomConfig (r : Q) : option apiConfig :=
  js_index apiConfigs (Qfloor (Binary64.fl (r * inject_Z (Z.of_nat (length apiConfigs))))).

End FetchConfig.

Module Page.
Import Text Fetch Typewriter.

(** ** [setupTypewriterEffect]: the caller of [fetchDailyQuote] and
    [startTypewriterAnimation]

    The hero subtitle is the element of the typewriter model.  Besides the
    typewriter callbacks, the page runs three callbacks of its own: the
    500 ms loading interval, the 3000 ms timeout that calls
    [fetchDailyQuote], and, after a failure, the 1000 ms timeout that types
    the default text.  They draw their handles from the same counter as the
    typewriter timers.  The call of [fetchDailyQuote] runs as modelled in
    [Fetch]; the page observes only the settlement of its promise.

    The page's start-up calls [setupTypewriterEffect] twice (once from
    [setupAdvancedEffects], once directly), so two such sessions share the
    subtitle.  This model follows the callbacks of one call; the facts
    proved about it hold for each call's own callbacks, not for the
    interleaving of the two. *)

(** [获取每日一言中] *)
Definition loading_base : list Z := [33719; 21462; 27599; 26085; 19968; 35328; 20013].

(** [获取失败，使用默认内容...] *)
Definition failure_text : list Z :=
  [33719; 21462; 22833; 36133; 65292; 20351; 29992; 40664; 35748; 20869; 23481; 46; 46; 46].

(** [defaultText]: [你所热爱的，就是你的生活——陈睿] *)
Definition defaultText : list Z :=
  [20320; 25152; 28909; 29233; 30340; 65292; 23601; 26159; 20320; 30340;
   29983; 27963; 8212; 8212; 38472; 30591].

Inductive ptask :=
| LoadingTick   (* setInterval(() => { loadingDots = ...; textContent = ... }, 500) *)
| StartFetch    (* setTimeout(() => { this.fetchDailyQuote().then(...).catch(...) }, 3000) *)
| Fallback.     (* setTimeout(() => startTypewriterAnimation(defaultText), 1000) *)

Record ptimer := mkPTimer {
  p_id : nat;
  p_seq : nat;
  p_due : Z;
  p_task : ptask
}.

Record page := mkPage {
  tw : world;              (* the subtitle and the typewriter timers *)
  loading : bool;          (* the [loading] class of the subtitle *)
  loadingDots : nat;
  loadingInterval : nat;   (* the handle returned by [setInterval] *)
  ptimers : list ptimer;   (* the pending page callbacks *)
  fetching : bool          (* the promise of [fetchDailyQuote] is pending *)
}.

Definition set_tw (pg : page) (w : world) : page :=
  mkPage w (loading pg) (loadingDots pg) (loadingInterval pg) (ptimers pg) (fetching pg).

Definition set_ptimers (pg : page) (l : list ptimer) : page :=
  mkPage (tw pg) (loading pg) (loadingDots pg) (loadingInterval pg) l (fetching pg).

(** A fresh handle (and sequence number) from the shared counter. *)
Definition fresh_id (w : world) : nat * world :=
  (next_id w, mkWorld (content w) (border w) (typing w) (timers w) (clock w)
                (S (next_id w)) (rng w)).

(** [获取每日一言中 + '.'.repeat(n)] *)
Definition loadingText (n : nat) : list Z := loading_base ++ repeat 46 n.

(** The body of [setupTypewriterEffect] once the subtitle is found:
    [textContent] is the base text, the [loading] class is added, the border
    is drawn, and the two timers are scheduled.  [killTweensOf] and the
    transform and opacity resets touch no state of this model. *)
Definition setupTypewriterEffect (w : world) : page :=
  let w1 := set_border (set_content w (loadingText 0)) true in
  let (iid, w2) := fresh_id w1 in
  let (sid, w3) := fresh_id w2 in
  mkPage w3 true 0 iid
    [mkPTimer iid iid (clock w + 500) LoadingTick;
     mkPTimer sid sid (clock w + 3000) StartFetch]
    false.

Definition pearlier (a b : ptimer) : bool :=
  (p_due a <? p_due b) || ((p_due a =? p_due b) && Nat.ltb (p_seq a) (p_seq b)).

Fixpoint pearliest (l : list ptimer) : option ptimer :=
  match l with
  | [] => None
  | t :: r =>
      match pearliest r with
      | Some u => if pearlier u t then Some u else Some t
      | None => Some t
      end
  end.

(** [clearTimeout(id)] / [clearInterval(id)] on the page callbacks. *)
Definition premove (id : nat) (l : list ptimer) : list ptimer :=
  filter (fun p => negb (Nat.eqb (p_id p) id)) l.

(** The page callback [p] runs before the typewriter callback [t]. *)
Definition page_first (p : ptimer) (t : timer) : bool :=
  (p_due p <? tm_due t) || ((p_due p =? tm_due t) && Nat.ltb (p_seq p) (tm_seq t)).

Definition run_ptask (p : ptimer) (pg : page) : page :=
  match p_task p with
  | LoadingTick =>
      (* loadingDots = (loadingDots + 1) % 4; textContent = ...; the
         interval is due again 500 ms later *)
      let dots := Nat.modulo (S (loadingDots pg)) 4 in
      let w1 := set_content (tw pg) (loadingText dots) in
      let (sq, w2) := fresh_id w1 in
      mkPage w2 (loading pg) dots (loadingInterval pg)
        (ptimers pg ++ [mkPTimer (p_id p) sq (clock w2 + 500) LoadingTick])
        (fetching pg)
  | StartFetch =>
      (* fetchDailyQuote() draws Math.random() for the endpoint and
         schedules its 5000 ms abort timeout (run as in [Fetch]); its
         promise is now pending *)
      let (_, w1) := random (tw pg) in
      let (_, w2) := fresh_id w1 in
      mkPage w2 (loading pg) (loadingDots pg) (loadingInterval pg) (ptimers pg) true
  | Fallback =>
      set_tw pg (startTypewriterAnimation defaultText (tw pg))
  end.

(** One turn of the event loop: the earliest pending callback, of the page
    or of the typewriter, runs. *)
Definition pstep (pg : page) : option page :=
  let run_page_timer p :=
    let pg1 := set_ptimers pg (premove (p_id p) (ptimers pg)) in
    run_ptask p (set_tw pg1 (set_clock (tw pg1) (p_due p))) in
  match pearliest (ptimers pg), earliest (timers (tw pg)) with
  | Some p, Some t =>
      if page_first p t then Some (run_page_timer p)
      else option_map (set_tw pg) (step (tw pg))
  | Some p, None => Some (run_page_timer p)
  | None, Some _ => option_map (set_tw pg) (step (tw pg))
  | None, None => None
  end.

(** No callback is still pending from before the instant [t]. *)
Definition nothing_due_before (t : Z) (pg : page) : bool :=
  (clock (tw pg) <=? t)
  && forallb (fun p => t <=? p_due p) (ptimers pg)
  && forallb (fun tm => t <=? tm_due tm) (timers (tw pg)).

(** The promise of [fetchDailyQuote] settles with [r] at time [t]: the
    [.then] or [.catch] reaction clears the loading interval, removes the
    [loading] class, and then types the quote, or shows the failure text
    and schedules the default text 1000 ms later.  On an empty quote,
    [startTypewriterAnimation] finishes at once and calls
    [this.showNotification], which [AnimationSystem] does not define: the
    [TypeError] rejects the [.then] reaction and the [.catch] reaction
    runs as well.  (On a longer text that call happens inside a timer
    callback, where the exception changes nothing.)  A promise that is not
    pending, or a time the event loop has already passed, has no effect. *)
Definition settle (t : Z) (r : result) (pg : page) : page :=
  if fetching pg && nothing_due_before t pg then
    let w1 := set_clock (tw pg) t in
    (* the [.catch] reaction, on the element [w] and the callbacks [l] *)
    let on_error (w : world) (l : list ptimer) :=
      let (fid, w2) := fresh_id (set_content w failure_text) in
      mkPage w2 false (loadingDots pg) (loadingInterval pg)
        (premove (loadingInterval pg) l ++ [mkPTimer fid fid (t + 1000) Fallback]) false in
    match r with
    | Ok quote =>
        let w2 := startTypewriterAnimation quote w1 in
        let l1 := premove (loadingInterval pg) (ptimers pg) in
        match quote with
        | [] => on_error w2 l1
        | _ :: _ => mkPage w2 false (loadingDots pg) (loadingInterval pg) l1 false
        end
    | Err _ => on_error w1 (ptimers pg)
    end
  else pg.

Inductive paction :=
| PStep                      (* a turn of the event loop *)
| Settle (t : Z) (r : result).  (* the quote promise settles at time [t] *)

Definition pact (pg : page) (a : paction) : page :=
  match a with
  | PStep => match pstep pg with Some pg' => pg' | None => pg end
  | Settle t r => settle t r pg
  end.

Definition run_page (pg : page) (acts : list paction) : page := fold_left pact acts pg.

End Page.

(** ** Properties and scenarios used by the statements below *)

Module TextProps.
Import Text.

(** The two straight newlines of the spec's scenario, and the typographic
    quotes U+201C and U+201D around [Hi]. *)
Definition hello_nn_world : list Z := [72; 101; 108; 108; 111; 10; 10; 87; 111; 114; 108; 100].

Definition hello_world : list Z := [72; 101; 108; 108; 111; 32; 87; 111; 114; 108; 100].

Definition smart_quoted_hi : list Z := [8220; 72; 105; 8221].

Definition head_ok (l : list Z) : Prop :=
  match l with [] => True | c :: _ => is_js_space c = false end.

(** No white space at either end. *)
Definition ends_ok (l : list Z) : Prop := head_ok l /\ head_ok (rev l).

Definition no_crlf_tab (l : list Z) : Prop :=
  Forall (fun c => is_crlf_tab c = false) l.

End TextProps.

Module FetchProps.
Import Text Fetch.

(** Where the timeout stands in each phase of a run. *)
Definition Inv (st : fstate) : Prop :=
  match ph st with
  | AwaitFetch => timer st = Some timeout_ms
  | AwaitText => timer st = None
  | Settled _ => timer st = None
  end.

Definition settled_without_timer (st : fstate) : Prop :=
  match ph st with Settled _ => timer st = None | _ => True end.

(** The state right after the timeout has run while [fetch] was pending. *)
Definition timed_out (abort_message : string) : fstate :=
  mkFState (Settled (Err (Error abort_message))) None true.

(** The messages of the platform's own rejections are not the empty-body
    message. *)
Definition platform_message_ok (ev : net_event) : Prop :=
  match ev with
  | FetchRejected m | TextRejected m => m <> empty_message
  | _ => True
  end.

Definition is_text_event (ev : net_event) : bool :=
  match ev with TextResolved _ | TextRejected _ => true | _ => false end.

End FetchProps.

Module TypewriterProps.
Import Text Typewriter.


Definition is_blink_tick (t : task) : Prop :=
  match t with BlinkTick _ _ => True | _ => False end.

(** Handles are unique and every handle and sequence number is below the
    counter. *)
Definition ids_fresh (l : list timer) (n : nat) : Prop :=
  NoDup (map tm_id l) /\
  Forall (fun t => (tm_id t < n)%nat /\ (tm_seq t < n)%nat) l.

(** A pending 30 s stop names a handle no other kind of timer carries. *)
Definition stop_targets (l : list timer) (n : nat) : Prop :=
  (forall st x iid, In st l -> In x l -> tm_task st = BlinkStop iid ->
     tm_id x = iid -> is_blink_tick (tm_task x)) /\
  (forall st iid, In st l -> tm_task st = BlinkStop iid -> (iid < n)%nat).

(** Every pending blink interval has its stop pending; its next toggle,
    the [(c+1)]-th, is due [500 (c+1)] ms after the loop began, which is
    [30000] ms before the stop is due. *)
Definition blink_paired (l : list timer) : Prop :=
  forall tm v c, In tm l -> tm_task tm = BlinkTick v c ->
    exists st, In st l /\ tm_task st = BlinkStop (tm_id tm) /\
      tm_due tm = tm_due st - 30000 + 500 * Z.of_nat (S c) /\ (c < 60)%nat /\
      (c = O -> (tm_seq tm < tm_seq st)%nat) /\
      (c <> O -> (tm_seq st < tm_seq tm)%nat).

Definition BInv (l : list timer) (n : nat) : Prop :=
  ids_fresh l n /\ stop_targets l n /\ blink_paired l.

Definition BInvW (w : world) : Prop := BInv (timers w) (next_id w).

End TypewriterProps.
Module QuoteProps.
Import Text Fetch TextProps.

(** The only white space is the plain space U+0020. *)
Definition only_plain_spaces (l : list Z) : Prop :=
  Forall (fun c => is_js_space c = false \/ c = 32) l.

Fixpoint no_two_spaces (l : list Z) : bool :=
  match l with
  | a :: ((b :: _) as r) => negb ((a =? 32) && (b =? 32)) && no_two_spaces r
  | _ => true
  end.

(** A quote fit for one line of the subtitle: not empty, no white space at
    either end, no white space but single plain spaces. *)
Definition one_line (q : list Z) : Prop :=
  q <> [] /\ ends_ok q /\ only_plain_spaces q /\ no_two_spaces q = true.

(** A quote the call resolved with was cut from a body that is not blank. *)
Definition ok_from_body (st : fstate) : Prop :=
  forall q, ph st = Settled (Ok q) -> exists body, trim body <> [] /\ q = display_quote body.

End QuoteProps.

Module SessionProps.
Import Text Typewriter TypewriterProps.

Definition is_type_tick (t : task) : bool :=
  match t with TypeTick _ _ => true | _ => false end.

Definition count_ticks (l : list timer) : nat :=
  length (filter (fun tm => is_type_tick (tm_task tm)) l).

(** [txt] is being typed: the element shows the prefix of [txt] up to the
    index held by the one pending [typeNextChar]; every other pending timer
    ends a flash of the border. *)
Definition typing_session (txt : list Z) (w : world) : Prop :=
  typing w = true /\ (length (content w) <= length txt)%nat /\
  content w = firstn (length (content w)) txt /\
  Forall (fun tm => tm_task tm = FlashOff \/ tm_task tm = TypeTick txt (length (content w)))
    (timers w) /\
  count_ticks (timers w) = 1%nat /\ ids_fresh (timers w) (next_id w).

(** [txt] has been typed: it is shown in full, the [typing] class is gone
    and no [typeNextChar] is pending. *)
Definition typing_done (txt : list Z) (w : world) : Prop :=
  typing w = false /\ content w = txt /\
  Forall (fun tm => is_type_tick (tm_task tm) = false) (timers w).

(** Pending timers plus twice the code units still to reveal. *)
Definition session_potential (txt : list Z) (w : world) : nat :=
  length (timers w) + 2 * (length txt - length (content w)).

(** [startTypewriterAnimation(element, txt)] followed by [n] turns of the
    event loop. *)
Definition session_run (txt : list Z) (w0 : world) (n : nat) : world :=
  run_actions w0 (Render txt :: repeat Step n).

End SessionProps.

Module PageProps.
Import Text Fetch Typewriter Page.

(** While the quote loads: no typewriter timer, the loading text with at
    most three dots, and pending only the loading interval and, until the
    fetch starts, the 3000 ms timeout. *)
Definition loading_phase (pg : page) : Prop :=
  timers (tw pg) = [] /\ content (tw pg) = loadingText (loadingDots pg) /\
  (loadingDots pg < 4)%nat /\
  exists sid, Forall (fun p =>
    (p_task p = LoadingTick /\ p_id p = loadingInterval pg) \/
    (p_task p = StartFetch /\ p_id p = sid /\ fetching pg = false)) (ptimers pg).

(** Once the promise has settled: no fetch pending, and no page callback
    pending but the fallback to the default text. *)
Definition settled_phase (pg : page) : Prop :=
  fetching pg = false /\ Forall (fun p => p_task p = Fallback) (ptimers pg).

Definition page_inv (pg : page) : Prop :=
  (loading pg = true /\ loading_phase pg) \/ (loading pg = false /\ settled_phase pg).

End PageProps.

Module Scenarios.
Import Text Fetch Typewriter.

(** Sixty-six code units with a full stop at position 55. *)
Definition long_with_stop : list Z := repeat 97 55 ++ [46] ++ repeat 97 10.

Definition chrome_abort_message : string := "signal is aborted without reason"%string.

Definition ok_200 : response := mkResponse true 200 "OK"%string.

Definition blank_page (rs : list Q) : world := mkWorld [] false false [] 0 0 rs.

(** Render [Hi!] on a blank page and let the event loop run 70 turns:
    the text is fully shown and the blink loop has ended. *)
Definition hi_run : list action := Render [72; 105; 33] :: repeat Step 70.

Definition not_found : response := mkResponse false 404 "Not Found"%string.

Definition failed_to_fetch : string := "Failed to fetch"%string.

(** The largest double below 1, which a [Math.random()] drawing 53 random
    bits can return: 1 - 2^-53. *)
Definition top53 : Q := 1 - (1 # 9007199254740992).


End Scenarios.

Module Binary64Facts.
Import Binary64.

Lemma rhe_cases (y : Q) :
  round_half_even y = Qfloor y \/ round_half_even y = Qfloor y + 1.
Proof.
  unfold round_half_even; destruct (_ ?= _)%Q; auto; destruct (Z.even _); auto.
Qed.

Lemma rhe_int (z : Z) : round_half_even (inject_Z z) = z.
Proof.
  unfold round_half_even; rewrite Qfloor_Z.
  destruct (Qcompare_spec (inject_Z z - inject_Z z) (1 # 2)) as [H|H|H];
    [exfalso|reflexivity|exfalso]; revert H; generalize (inject_Z z); intros; lra.
Qed.

Lemma rhe_mono (y1 y2 : Q) : (y1 <= y2)%Q -> round_half_even y1 <= round_half_even y2.
Proof.
  intros H.
  pose proof (Qfloor_resp_le _ _ H) as Hf.
  destruct (Z.eq_dec (Qfloor y1) (Qfloor y2)) as [E|E].
  - unfold round_half_even; rewrite E.
    set (f := Qfloor y2) in *.
    destruct (Qcompare_spec (y1 - inject_Z f) (1 # 2)) as [H1|H1|H1];
    destruct (Qcompare_spec (y2 - inject_Z f) (1 # 2)) as [H2|H2|H2];
      try lia; try (destruct (Z.even f); lia); exfalso; lra.
  - destruct (rhe_cases y1) as [->| ->]; destruct (rhe_cases y2) as [->| ->]; lia.
Qed.

Lemma pw_pos (k : Z) : 0 <= k -> (0 < pw k)%Q.
Proof.
  intros Hk; unfold pw; change 0%Q with (inject_Z 0); rewrite <- Zlt_Qlt.
  apply Z.pow_pos_nonneg; lia.
Qed.

Lemma pw_add (a b : Z) : 0 <= a -> 0 <= b -> (pw (a + b) == pw a * pw b)%Q.
Proof. intros; unfold pw; rewrite Z.pow_add_r by lia; rewrite inject_Z_mult; reflexivity. Qed.

Lemma spacing_nonneg (x : Q) : 0 <= spacing x.
Proof. unfold spacing; lia. Qed.

Lemma spacing_mono (x1 x2 : Q) : (x1 <= x2)%Q -> spacing x1 <= spacing x2.
Proof.
  intros H; unfold spacing.
  pose proof (Z.log2_le_mono _ _ (Qfloor_resp_le _ _ H)); lia.
Qed.

Lemma spacing_upper (x : Q) : (0 <= x)%Q -> (x < pw (spacing x + 53))%Q.
Proof.
  intros Hx; unfold spacing.
  set (n := Qfloor x).
  assert (Hn : 0 <= n).
  { unfold n; change 0 with (Qfloor 0); apply Qfloor_resp_le, Hx. }
  assert (Hlt : n + 1 <= 2 ^ (Z.max 0 (Z.log2 n - 52) + 53)).
  { destruct (Z.eq_dec n 0) as [->|Hn0].
    - cbn; lia.
    - destruct (Z.log2_spec n) as [_ H2]; [lia|].
      assert (2 ^ Z.succ (Z.log2 n) <= 2 ^ (Z.max 0 (Z.log2 n - 52) + 53))
        by (apply Z.pow_le_mono_r; lia).
      lia. }
  apply Qlt_le_trans with (inject_Z (n + 1)); [apply Qlt_floor|].
  unfold pw; rewrite <- Zle_Qle; exact Hlt.
Qed.

Lemma spacing_lower (x : Q) : 0 < spacing x -> (pw (spacing x + 52) <= x)%Q.
Proof.
  unfold spacing; intros Hs.
  set (n := Qfloor x) in *.
  assert (Hn : 0 < n).
  { destruct (Z.le_gt_cases n 0) as [H|H]; [|exact H].
    rewrite (Z.log2_nonpos n H) in Hs; lia. }
  destruct (Z.log2_spec n Hn) as [H1 _].
  replace (Z.max 0 (Z.log2 n - 52) + 52) with (Z.log2 n) by lia.
  apply Qle_trans with (inject_Z n); [unfold pw; rewrite <- Zle_Qle; exact H1|apply Qfloor_le].
Qed.

Lemma round_units_mono (x1 x2 : Q) : (0 <= x1)%Q -> (x1 <= x2)%Q -> round_units x1 <= round_units x2.
Proof.
  intros H0 H; unfold round_units.
  pose proof (spacing_mono _ _ H) as Hs.
  pose proof (spacing_nonneg x1) as Hs1.
  destruct (Z.eq_dec (spacing x1) (spacing x2)) as [E|E].
  - rewrite <- E; apply Z.mul_le_mono_nonneg_r; [apply Z.pow_nonneg; lia|].
    apply rhe_mono; apply Qmult_le_compat_r; [exact H|].
    apply Qinv_le_0_compat, Qlt_le_weak, pw_pos; lia.
  - set (s1 := spacing x1) in *; set (s2 := spacing x2) in *.
    assert (Hup : round_half_even (x1 / pw s1) <= 2 ^ 53).
    { rewrite <- (rhe_int (2 ^ 53)); apply rhe_mono.
      apply Qle_shift_div_r; [apply pw_pos; lia|].
      change (inject_Z (2 ^ 53)) with (pw 53); rewrite <- pw_add by lia.
      apply Qlt_le_weak; rewrite Z.add_comm; apply spacing_upper, H0. }
    assert (Hlo : 2 ^ 52 <= round_half_even (x2 / pw s2)).
    { rewrite <- (rhe_int (2 ^ 52)); apply rhe_mono.
      apply Qle_shift_div_l; [apply pw_pos; lia|].
      change (inject_Z (2 ^ 52)) with (pw 52); rewrite <- pw_add by lia.
      rewrite Z.add_comm; apply spacing_lower; lia. }
    apply Z.le_trans with (2 ^ 53 * 2 ^ s1);
      [apply Z.mul_le_mono_nonneg_r; [apply Z.pow_nonneg|]; lia|].
    apply Z.le_trans with (2 ^ 52 * 2 ^ s2);
      [|apply Z.mul_le_mono_nonneg_r; [apply Z.pow_nonneg|]; lia].
    rewrite <- !Z.pow_add_r by lia; apply Z.pow_le_mono_r; lia.
Qed.

Lemma fl_nonneg_mono (a b : Q) : (0 <= a)%Q -> (a <= b)%Q -> (fl_nonneg a <= fl_nonneg b)%Q.
Proof.
  intros H0 H; unfold fl_nonneg.
  assert (Hs : (0 < inject_Z scale)%Q) by (apply (pw_pos 1074); lia).
  apply Qmult_le_compat_r; [|apply Qinv_le_0_compat, Qlt_le_weak, Hs].
  rewrite <- Zle_Qle; apply round_units_mono.
  - apply Qmult_le_0_compat; [exact H0|apply Qlt_le_weak, Hs].
  - apply Qmult_le_compat_r; [exact H|apply Qlt_le_weak, Hs].
Qed.

Lemma fl_of_nonneg (q : Q) : (0 <= q)%Q -> fl q = fl_nonneg q.
Proof. intros H; unfold fl; rewrite (proj2 (Qle_bool_iff _ _) H); reflexivity. Qed.

(** Rounding is monotone on the non-negative numbers. *)
Lemma fl_mono (a b : Q) : (0 <= a)%Q -> (a <= b)%Q -> (fl a <= fl b)%Q.
Proof.
  intros H0 H; rewrite !fl_of_nonneg by lra; apply fl_nonneg_mono; assumption.
Qed.

Lemma fl_between (lo hi q : Q) :
  (0 <= lo)%Q -> (lo <= q <= hi)%Q -> (fl lo <= fl q <= fl hi)%Q.
Proof. intros H0 [H1 H2]; split; apply fl_mono; lra. Qed.



End Binary64Facts.

Module TextFacts.
Import Text TextProps.

(** *** Scanning for a cut point *)

Lemma scan_cut_range (s : list Z) (n i : nat) :
  scan_cut s i n = -1 \/
  exists k, (k < n)%nat /\ includes_at s (i + k) = true /\
            scan_cut s i n = Z.of_nat (i + k + 1).
Proof.
  revert i; induction n as [|n IH]; intros i; simpl; [now left|].
  destruct (includes_at s i) eqn:E.
  - right; exists O; rewrite Nat.add_0_r.
    split; [lia|split; [exact E|reflexivity]].
  - destruct (IH (S i)) as [H|(k & Hk & Hin & H)]; [now left|].
    right; exists (S k).
    replace (i + S k)%nat with (S i + k)%nat by lia.
    split; [lia|split; [exact Hin|rewrite H; reflexivity]].
Qed.

Lemma scan_cut_first (s : list Z) (k : nat) : forall (n i : nat),
  (k < n)%nat ->
  (forall j, (i <= j < i + k)%nat -> includes_at s j = false) ->
  includes_at s (i + k) = true ->
  scan_cut s i n = Z.of_nat (i + k + 1).
Proof.
  induction k as [|k IH]; intros [|n] i Hk Hbefore Hat; try lia; simpl.
  - rewrite Nat.add_0_r in Hat |- *; now rewrite Hat.
  - rewrite (Hbefore i) by lia.
    rewrite (IH n (S i)); [f_equal; lia|lia| |].
    + intros j Hj; apply Hbefore; lia.
    + now replace (S i + k)%nat with (i + S k)%nat by lia.
Qed.

Lemma scan_cut_none (s : list Z) : forall (n i : nat),
  (forall j, (i <= j < i + n)%nat -> includes_at s j = false) ->
  scan_cut s i n = -1.
Proof.
  induction n as [|n IH]; intros i H; simpl; [reflexivity|].
  rewrite (H i) by lia; apply IH; intros j Hj; apply H; lia.
Qed.

(** *** Claim C1 *)

(** C1: whatever raw body the fetcher receives, the quote it returns after
    sanitising and truncating is at most 60 code units long. *)
Theorem display_quote_length_le_60 (quote : list Z) :
  (length (display_quote quote) <= 60)%nat.
Proof.
  unfold display_quote, truncate; set (s := sanitize quote).
  change maxLength with 60%nat; change (60 - 10)%nat with 50%nat;
    change (60 - 3)%nat with 57%nat.
  destruct (Nat.ltb_spec 60 (length s)) as [Hlt|Hge]; [|exact Hge].
  destruct (scan_cut_range s 10 50) as [H|(k & Hk & _ & H)]; rewrite H.
  - change (0 <? -1) with false; cbv iota.
    rewrite length_app, length_firstn; cbn [length]; lia.
  - replace (0 <? Z.of_nat (50 + k + 1)) with true
      by (symmetry; apply Z.ltb_lt; lia).
    rewrite Nat2Z.id, length_firstn; lia.
Qed.

(** *** Claim C2 *)

(** C2: on a string longer than 60 code units, if [i] in [50, 60) is the
    first position holding one of the six sentence-ending marks, the result
    is the prefix ending at that mark; if no such position exists, the
    result is the first 57 code units followed by three full stops, 60 code
    units in all. *)
Theorem truncate_cut_or_ellipsis (s : list Z) :
  (60 < length s)%nat ->
  (forall i, (50 <= i < 60)%nat -> includes_at s i = true ->
     (forall j, (50 <= j < i)%nat -> includes_at s j = false) ->
     truncate s = firstn (S i) s /\ length (truncate s) = S i)
  /\ ((forall j, (50 <= j < 60)%nat -> includes_at s j = false) ->
      truncate s = firstn 57 s ++ [46; 46; 46] /\ length (truncate s) = 60%nat).
Proof.
  intros Hlen; unfold truncate.
  change maxLength with 60%nat; change (60 - 10)%nat with 50%nat;
    change (60 - 3)%nat with 57%nat.
  assert (Hlt : Nat.ltb 60 (length s) = true) by (apply Nat.ltb_lt; exact Hlen).
  rewrite Hlt; split.
  - intros i Hi Hat Hbefore.
    rewrite (scan_cut_first s (i - 50) 10 50).
    + replace (50 + (i - 50) + 1)%nat with (S i) by lia.
      replace (0 <? Z.of_nat (S i)) with true by (symmetry; apply Z.ltb_lt; lia).
      rewrite Nat2Z.id; split; [reflexivity|]; rewrite length_firstn; lia.
    + lia.
    + intros j Hj; apply Hbefore; lia.
    + now replace (50 + (i - 50))%nat with i by lia.
  - intros Hnone.
    rewrite (scan_cut_none s 10 50).
    + change (0 <? -1) with false; cbv iota.
      split; [reflexivity|]; rewrite length_app, length_firstn; cbn [length]; lia.
    + intros j Hj; apply Hnone; lia.
Qed.

(** *** Claim C3 *)


(** C3: the sanitiser maps [Hello], two newlines, [World] to [Hello World],
    but it leaves the typographic double quotes U+201C and U+201D in place
    instead of turning them into straight quotes, because the character
    classes of its two quote replacements contain only the straight quotes
    themselves. *)
Theorem sanitize_keeps_smart_quotes :
  sanitize hello_nn_world = hello_world /\
  sanitize smart_quoted_hi = smart_quoted_hi /\
  sanitize smart_quoted_hi <> [34; 72; 105; 34].
Proof.
  split; [reflexivity|split; [reflexivity|]].
  vm_compute; congruence.
Qed.

(** *** Claim C4 *)




Lemma crlf_tab_is_space (c : Z) : is_crlf_tab c = true -> is_js_space c = true.
Proof.
  unfold is_crlf_tab, is_js_space; intros H.
  repeat rewrite orb_true_iff in H.
  destruct H as [[H|H]|H]; rewrite H; now rewrite ?orb_true_r.
Qed.

Lemma non_space_not_crlf_tab (c : Z) : is_js_space c = false -> is_crlf_tab c = false.
Proof.
  intros H; destruct (is_crlf_tab c) eqn:E; [|reflexivity].
  now rewrite (crlf_tab_is_space c E) in H.
Qed.

Lemma replace_class_id (cls : list Z) (rep : Z) (s : list Z) :
  Forall (fun x => x = rep) cls -> replace_class cls rep s = s.
Proof.
  intros Hcls; unfold replace_class; induction s as [|c s IH]; [reflexivity|].
  cbn [map]; rewrite IH; f_equal.
  destruct (memZ c cls) eqn:E; [|reflexivity].
  unfold memZ in E; apply existsb_exists in E as (x & Hx & Hcx).
  apply Z.eqb_eq in Hcx; rewrite Forall_forall in Hcls.
  now rewrite Hcx, (Hcls x Hx).
Qed.

Lemma sanitize_eq (q : list Z) :
  sanitize q = collapse_ws (replace_crlf_tab (trim q)).
Proof.
  unfold sanitize; rewrite !replace_class_id; [reflexivity| |];
    repeat constructor.
Qed.

Lemma drop_while_split (p : Z -> bool) (x : list Z) :
  exists z, x = z ++ drop_while p x.
Proof.
  induction x as [|c x IH]; [now exists []|]; cbn [drop_while].
  destruct (p c); [|now exists []].
  destruct IH as (z & Hz); exists (c :: z); cbn; now f_equal.
Qed.

Lemma drop_while_head_ok (x : list Z) : head_ok (drop_while is_js_space x).
Proof.
  induction x as [|c x IH]; cbn; [exact I|].
  destruct (is_js_space c) eqn:E; [exact IH|exact E].
Qed.

Lemma drop_while_id (x : list Z) : head_ok x -> drop_while is_js_space x = x.
Proof. destruct x as [|c x]; cbn; [reflexivity|intros H; now rewrite H]. Qed.

Lemma head_ok_app_l (a b : list Z) : head_ok (a ++ b) -> head_ok a.
Proof. destruct a; cbn; auto. Qed.

Lemma trim_ends (s : list Z) : ends_ok (trim s).
Proof.
  unfold ends_ok, trim; rewrite rev_involutive; split; [|apply drop_while_head_ok].
  set (t := drop_while is_js_space s).
  destruct (drop_while_split is_js_space (rev t)) as (z & Hz).
  apply (head_ok_app_l _ (rev z)).
  rewrite <- rev_app_distr, <- Hz, rev_involutive; apply drop_while_head_ok.
Qed.

Lemma trim_id (l : list Z) : ends_ok l -> trim l = l.
Proof.
  intros [H1 H2]; unfold trim.
  rewrite (drop_while_id l H1), (drop_while_id (rev l) H2); apply rev_involutive.
Qed.

Lemma replace_crlf_tab_head_ok (l : list Z) :
  head_ok l -> head_ok (replace_crlf_tab l).
Proof.
  destruct l as [|c l]; cbn; [auto|intros H].
  now rewrite (non_space_not_crlf_tab c H).
Qed.

Lemma replace_crlf_tab_ends (l : list Z) : ends_ok l -> ends_ok (replace_crlf_tab l).
Proof.
  intros [H1 H2]; split; [now apply replace_crlf_tab_head_ok|].
  unfold replace_crlf_tab; rewrite <- map_rev; now apply replace_crlf_tab_head_ok.
Qed.

Lemma replace_crlf_tab_clean (l : list Z) : no_crlf_tab (replace_crlf_tab l).
Proof.
  unfold no_crlf_tab, replace_crlf_tab; rewrite Forall_map, Forall_forall.
  intros c _; destruct (is_crlf_tab c) eqn:E; [reflexivity|exact E].
Qed.

Lemma replace_crlf_tab_id (l : list Z) : no_crlf_tab l -> replace_crlf_tab l = l.
Proof.
  intros H; unfold replace_crlf_tab; induction H as [|c l Hc _ IH]; [reflexivity|].
  cbn [map]; now rewrite Hc, IH.
Qed.

Lemma collapse_aux_no_crlf_tab (b : bool) (l : list Z) :
  no_crlf_tab l -> no_crlf_tab (collapse_aux b l).
Proof.
  intros H; revert b; induction H as [|c l Hc _ IH]; intros b; cbn; [constructor|].
  destruct (is_js_space c); [destruct b; [apply IH|constructor; [reflexivity|apply IH]]|].
  constructor; [exact Hc|apply IH].
Qed.

Lemma collapse_aux_idem (b : bool) (l : list Z) :
  collapse_aux b (collapse_aux b l) = collapse_aux b l.
Proof.
  revert b; induction l as [|c l IH]; intros b; [reflexivity|]; cbn.
  destruct (is_js_space c) eqn:E.
  - destruct b; [apply IH|]; cbn; f_equal; apply IH.
  - cbn; rewrite E; f_equal; apply IH.
Qed.

Lemma collapse_aux_snoc (b : bool) (l : list Z) (x : Z) :
  is_js_space x = false -> collapse_aux b (l ++ [x]) = collapse_aux b l ++ [x].
Proof.
  intros Hx; revert b; induction l as [|c l IH]; intros b; cbn.
  - now rewrite Hx.
  - destruct (is_js_space c); [destruct b|]; cbn; now rewrite IH.
Qed.

Lemma collapse_ws_ends (l : list Z) : ends_ok l -> ends_ok (collapse_ws l).
Proof.
  intros [H1 H2]; unfold collapse_ws; split.
  - destruct l as [|c l]; cbn in *; [exact I|]; now rewrite H1.
  - destruct (rev l) as [|x r] eqn:E.
    + apply (f_equal (@rev Z)) in E; rewrite rev_involutive in E; now subst.
    + apply (f_equal (@rev Z)) in E; rewrite rev_involutive in E; subst l.
      cbn in H2 |- *; rewrite collapse_aux_snoc by exact H2.
      now rewrite rev_app_distr.
Qed.

(** C4: sanitising is idempotent: a string that has already been sanitised
    comes out of the sanitiser unchanged. *)
Theorem sanitize_idempotent (s : list Z) : sanitize (sanitize s) = sanitize s.
Proof.
  rewrite (sanitize_eq (sanitize s)); rewrite sanitize_eq.
  set (y := replace_crlf_tab (trim s)).
  assert (Hends : ends_ok (collapse_ws y))
    by (apply collapse_ws_ends, replace_crlf_tab_ends, trim_ends).
  rewrite (trim_id _ Hends).
  rewrite replace_crlf_tab_id
    by (apply collapse_aux_no_crlf_tab, replace_crlf_tab_clean).
  apply collapse_aux_idem.
Qed.

End TextFacts.

Module FetchFacts.
Import Text Fetch FetchProps.

Section Facts.

Variable abort_message : string.


Lemma Inv_start : Inv start.
Proof. reflexivity. Qed.

Lemma Inv_fire_timer (st : fstate) : Inv (fire_timer abort_message st).
Proof. unfold fire_timer; destruct (ph st); reflexivity. Qed.

Lemma Inv_deliver (st : fstate) (ev : net_event) : Inv st -> Inv (deliver st ev).
Proof.
  unfold Inv, deliver; intros H.
  destruct (ph st) eqn:Ep, ev as [resp|m|b|m]; cbn; try (rewrite Ep; exact H);
    try reflexivity.
  - destruct (ok resp); reflexivity.
  - unfold after_text.
    destruct (_ || _); [reflexivity|exact H].
Qed.

Lemma Inv_advance (t : Z) (st : fstate) : Inv st -> Inv (advance abort_message t st).
Proof.
  unfold advance; intros H; destruct (timer st); [|exact H].
  destruct (_ <=? t); [apply Inv_fire_timer|exact H].
Qed.

Lemma Inv_step_at (st : fstate) (e : Z * net_event) :
  Inv st -> Inv (step_at abort_message st e).
Proof. intros H; apply Inv_deliver, Inv_advance, H. Qed.

Lemma Inv_run_events (tl : list (Z * net_event)) :
  forall st, Inv st -> Inv (run_events abort_message st tl).
Proof.
  induction tl as [|e tl IH]; intros st H; [exact H|].
  apply IH, Inv_step_at, H.
Qed.

Lemma Inv_finish (st : fstate) : Inv st -> Inv (finish abort_message st).
Proof.
  unfold finish; intros H; destruct (timer st); [apply Inv_fire_timer|exact H].
Qed.


Lemma Inv_settled (st : fstate) : Inv st -> settled_without_timer st.
Proof. unfold Inv, settled_without_timer; destruct (ph st); auto. Qed.

(** *** Claim C10 *)

(** C10: in every state a call can reach, whatever the network does and
    whenever the timeout runs, a settled call has no pending timeout: each
    path that settles the promise (success, HTTP status, empty body,
    network or body error, abort by the timeout) has cleared or consumed
    the timer by then. *)
Theorem settled_call_has_no_timer (tl : list (Z * net_event)) :
  settled_without_timer (run_events abort_message start tl) /\
  settled_without_timer (run abort_message tl).
Proof.
  split; apply Inv_settled.
  - apply Inv_run_events, Inv_start.
  - apply Inv_finish, Inv_run_events, Inv_start.
Qed.

(** *** Claim C6 *)

Lemma settled_step_at (st : fstate) (r : result) (e : Z * net_event) :
  ph st = Settled r -> timer st = None -> step_at abort_message st e = st.
Proof.
  intros Hp Ht; unfold step_at, advance; rewrite Ht; unfold deliver; rewrite Hp.
  destruct (snd e); reflexivity.
Qed.

Lemma settled_run_events (st : fstate) (r : result) (tl : list (Z * net_event)) :
  ph st = Settled r -> timer st = None -> run_events abort_message st tl = st.
Proof.
  intros Hp Ht; induction tl as [|e tl IH]; [reflexivity|]; cbn.
  rewrite (settled_step_at st r e Hp Ht); exact IH.
Qed.


(** C6: the call arms a 5000 ms timeout; when no network event comes
    before that instant, the timeout aborts the controller and the call
    rejects with the abort error; every event arriving afterwards (a late
    response at 5001 ms, its body, ...) leaves the call in that same
    rejected state, so it never settles to success. *)
Theorem timeout_aborts_and_late_events_are_ignored
    (tl : list (Z * net_event)) :
  Forall (fun e => timeout_ms <= fst e) tl ->
  timer start = Some 5000 /\
  forall n, run abort_message (firstn n tl) = timed_out abort_message.
Proof.
  intros Hlate; split; [reflexivity|]; intros n.
  destruct n as [|n]; [reflexivity|].
  destruct tl as [|e tl]; [reflexivity|].
  inversion Hlate as [|? ? He _]; subst.
  unfold run; cbn [firstn run_events fold_left].
  assert (Hstep : step_at abort_message start e = timed_out abort_message).
  { unfold step_at, advance; cbn [timer start].
    replace (timeout_ms <=? fst e) with true by (symmetry; apply Z.leb_le; exact He).
    unfold deliver; cbn; destruct (snd e); reflexivity. }
  rewrite Hstep; fold (run_events abort_message (timed_out abort_message) (firstn n tl)).
  rewrite (settled_run_events (timed_out abort_message) (Err (Error abort_message))); reflexivity.
Qed.

(** *** Claim C5 *)



Lemma http_message_not_empty (r : response) : http_message r <> empty_message.
Proof. unfold http_message, empty_message; cbn; intros H; inversion H. Qed.

Lemma after_text_empty (st : fstate) (body : list Z) :
  ph (after_text st body) = Settled (Err (Error empty_message)) <-> trim body = [].
Proof.
  unfold after_text; split.
  - destruct body as [|c b]; [reflexivity|]; cbn [orb].
    destruct (length (trim (c :: b)) =? 0)%nat eqn:E; cbn; [|discriminate].
    intros _; apply Nat.eqb_eq, length_zero_iff_nil in E; exact E.
  - intros H; rewrite H; cbn; now destruct body.
Qed.

Lemma step_at_empty (st : fstate) (e : Z * net_event) :
  abort_message <> empty_message -> Inv st -> platform_message_ok (snd e) ->
  ph st <> Settled (Err (Error empty_message)) ->
  ph (step_at abort_message st e) = Settled (Err (Error empty_message)) <->
  ph st = AwaitText /\ exists body, snd e = TextResolved body /\ trim body = [].
Proof.
  intros Habort HI Hmsg Hnot; destruct e as [t ev]; cbn [snd] in *.
  unfold step_at, advance, Inv in *; cbn [fst snd].
  destruct (ph st) as [| |r] eqn:Ep.
  - rewrite HI; destruct (timeout_ms <=? t).
    + unfold fire_timer; rewrite Ep; unfold deliver; cbn.
      split; [destruct ev; cbn; intros H; inversion H; congruence|].
      intros [H _]; discriminate.
    + unfold deliver; rewrite Ep.
      split; [|intros [H _]; discriminate].
      destruct ev as [resp|m|b|m]; cbn.
      * destruct (ok resp); cbn; [discriminate|].
        intros H; inversion H as [H1]; exfalso; exact (http_message_not_empty resp H1).
      * intros H; inversion H; congruence.
      * rewrite Ep; discriminate.
      * rewrite Ep; discriminate.
  - rewrite HI; unfold deliver; rewrite Ep.
    destruct ev as [resp|m|b|m]; cbn.
    + rewrite Ep; split; [discriminate|intros (_ & body & H & _); discriminate].
    + rewrite Ep; split; [discriminate|intros (_ & body & H & _); discriminate].
    + rewrite after_text_empty; split; [intros H; eauto|].
      intros (_ & body & H & Hb); injection H as ->; exact Hb.
    + split; [intros H; inversion H; congruence|].
      intros (_ & body & H & _); discriminate.
  - rewrite HI; unfold deliver; rewrite Ep.
    split; [|intros [H _]; discriminate].
    destruct ev; rewrite Ep; intros H; contradiction.
Qed.

Lemma phase_eq_dec_empty (p : phase) :
  {p = Settled (Err (Error empty_message))} + {p <> Settled (Err (Error empty_message))}.
Proof.
  destruct p as [| |[q|[m]]]; try (right; discriminate).
  destruct (string_dec m empty_message) as [->|Hm]; [now left|].
  right; intros H; inversion H; contradiction.
Qed.

Lemma phase_eq_dec_await_text (p : phase) : {p = AwaitText} + {p <> AwaitText}.
Proof. destruct p; [right; discriminate|now left|right; discriminate]. Qed.

Lemma run_empty_iff (tl : list (Z * net_event)) : forall st,
  abort_message <> empty_message -> Inv st ->
  Forall (fun e => platform_message_ok (snd e)) tl ->
  ph st <> Settled (Err (Error empty_message)) ->
  ph (finish abort_message (run_events abort_message st tl))
    = Settled (Err (Error empty_message)) <->
  exists tl1 t body tl2, tl = tl1 ++ (t, TextResolved body) :: tl2 /\
    ph (run_events abort_message st tl1) = AwaitText /\ trim body = [].
Proof.
  induction tl as [|e tl IH]; intros st Habort HI Hmsgs Hnot.
  - cbn [run_events fold_left]; split.
    + unfold finish; destruct (timer st).
      * unfold fire_timer; destruct (ph st) eqn:Ep; cbn;
          [intros H; inversion H; congruence|intros H; inversion H; congruence|].
        intros H; rewrite H in Ep; contradiction.
      * intros H; contradiction.
    + intros (tl1 & t & body & tl2 & H & _); destruct tl1; discriminate.
  - inversion Hmsgs as [|? ? Hm Hms]; subst.
    cbn [run_events fold_left]; fold (run_events abort_message (step_at abort_message st e) tl).
    set (st' := step_at abort_message st e).
    assert (HI' : Inv st') by (apply Inv_step_at, HI).
    destruct (phase_eq_dec_empty (ph st')) as [Hst'|Hst'].
    + (* the empty-body error is raised by this very event *)
      split.
      * intros _; apply step_at_empty in Hst' as [Hat (body & Hev & Hb)];
          [|assumption..].
        exists [], (fst e), body, tl; split; [|split; [exact Hat|exact Hb]].
        destruct e as [t ev]; cbn in Hev; now subst.
      * intros _; unfold Inv in HI'; rewrite Hst' in HI'.
        rewrite (settled_run_events st' _ tl Hst' HI').
        unfold finish; rewrite HI'; exact Hst'.
    + rewrite (IH st' Habort HI' Hms Hst'); split.
      * intros (tl1 & t & body & tl2 & H & Hat & Hb).
        exists (e :: tl1), t, body, tl2; split; [now rewrite H|split; [exact Hat|exact Hb]].
      * intros ([|e1 tl1] & t & body & tl2 & H & Hat & Hb).
        -- exfalso; apply Hst'; injection H as He _; subst e.
           apply step_at_empty; [assumption..|].
           split; [exact Hat|exists body; split; [reflexivity|exact Hb]].
        -- injection H as He H; subst e1.
           exists tl1, t, body, tl2; split; [exact H|split; [exact Hat|exact Hb]].
Qed.

Lemma await_text_step_other (st : fstate) (e : Z * net_event) :
  ph st = AwaitText -> Inv st -> is_text_event (snd e) = false ->
  step_at abort_message st e = st.
Proof.
  intros Hp HI Hev; unfold Inv in HI; rewrite Hp in HI.
  unfold step_at, advance; rewrite HI; unfold deliver; rewrite Hp.
  destruct (snd e); cbn in Hev; congruence.
Qed.

Lemma await_text_step_text (st : fstate) (e : Z * net_event) :
  ph st = AwaitText -> Inv st -> is_text_event (snd e) = true ->
  exists r, ph (step_at abort_message st e) = Settled r.
Proof.
  intros Hp HI Hev; unfold Inv in HI; rewrite Hp in HI.
  unfold step_at, advance; rewrite HI; unfold deliver; rewrite Hp.
  destruct (snd e); cbn in Hev; try discriminate;
    [unfold after_text; destruct (_ || _)|]; eexists; reflexivity.
Qed.

Lemma await_text_run (tl : list (Z * net_event)) : forall st,
  ph st = AwaitText -> Inv st ->
  ph (run_events abort_message st tl) = AwaitText <->
  Forall (fun e => is_text_event (snd e) = false) tl.
Proof.
  induction tl as [|e tl IH]; intros st Hp HI; cbn [run_events fold_left].
  - split; [constructor|intros _; exact Hp].
  - fold (run_events abort_message (step_at abort_message st e) tl).
    destruct (is_text_event (snd e)) eqn:Ev.
    + destruct (await_text_step_text st e Hp HI Ev) as (r & Hr).
      assert (HI' := Inv_step_at st e HI); unfold Inv in HI'; rewrite Hr in HI'.
      rewrite (settled_run_events _ r tl Hr HI'), Hr; split; [discriminate|].
      intros H; inversion H; congruence.
    + rewrite (await_text_step_other st e Hp HI Ev), (IH st Hp HI).
      split; [intros H; now constructor|intros H; now inversion H].
Qed.

Lemma never_back_to_fetch (tl : list (Z * net_event)) : forall st,
  ph st <> AwaitFetch -> ph (run_events abort_message st tl) <> AwaitFetch.
Proof.
  induction tl as [|e tl IH]; intros st Hp; [exact Hp|]; cbn [run_events fold_left].
  apply IH; unfold step_at, advance.
  assert (Hadv : forall st0, ph st0 <> AwaitFetch ->
            ph (deliver st0 (snd e)) <> AwaitFetch).
  { intros st0 H0; unfold deliver.
    destruct (ph st0) eqn:E0; [contradiction| |];
      destruct (snd e); try (rewrite E0; discriminate);
      unfold after_text; try destruct (_ || _); discriminate. }
  apply Hadv; destruct (timer st); [|exact Hp].
  destruct (_ <=? _); [|exact Hp].
  unfold fire_timer; destruct (ph st); discriminate.
Qed.

Lemma step_to_await_text (st : fstate) (t : Z) (ev : net_event) :
  Inv st -> ph st <> AwaitText ->
  ph (step_at abort_message st (t, ev)) = AwaitText <->
  ph st = AwaitFetch /\ t < timeout_ms /\ exists resp, ev = FetchResolved resp /\ ok resp = true.
Proof.
  intros HI Hp; unfold step_at, advance, Inv in *; cbn [fst snd].
  destruct (ph st) as [| |r] eqn:Ep; [|contradiction|].
  - rewrite HI; destruct (Z.leb_spec timeout_ms t) as [Hle|Hlt].
    + unfold fire_timer; rewrite Ep; unfold deliver; cbn.
      split; [destruct ev; discriminate|intros (_ & H & _); lia].
    + unfold deliver; rewrite Ep; destruct ev as [resp|m|b|m].
      * destruct (ok resp) eqn:Eok; cbn.
        -- split; [intros _; split; [reflexivity|split; [exact Hlt|eauto]]|reflexivity].
        -- split; [discriminate|intros (_ & _ & resp' & H & Hok)].
           injection H as ->; congruence.
      * cbn; split; [discriminate|intros (_ & _ & resp' & H & _); discriminate].
      * rewrite Ep; split; [discriminate|intros (_ & _ & resp' & H & _); discriminate].
      * rewrite Ep; split; [discriminate|intros (_ & _ & resp' & H & _); discriminate].
  - rewrite HI; unfold deliver; rewrite Ep.
    split; [destruct ev; rewrite Ep; discriminate|intros (H & _); discriminate].
Qed.

Lemma await_text_iff (tl : list (Z * net_event)) : forall st,
  Inv st -> ph st <> AwaitText ->
  ph (run_events abort_message st tl) = AwaitText <->
  exists tl0 t0 resp tl1,
    tl = tl0 ++ (t0, FetchResolved resp) :: tl1 /\
    ph (run_events abort_message st tl0) = AwaitFetch /\ t0 < timeout_ms /\
    ok resp = true /\ Forall (fun e => is_text_event (snd e) = false) tl1.
Proof.
  induction tl as [|e tl IH]; intros st HI Hp.
  - cbn; split; [intros H; contradiction|].
    intros (tl0 & t0 & resp & tl1 & H & _); destruct tl0; discriminate.
  - cbn [run_events fold_left]; fold (run_events abort_message (step_at abort_message st e) tl).
    set (st' := step_at abort_message st e).
    assert (HI' : Inv st') by (apply Inv_step_at, HI).
    destruct (phase_eq_dec_await_text (ph st')) as [Hst'|Hst'].
    + rewrite (await_text_run tl st' Hst' HI'); destruct e as [t ev].
      apply step_to_await_text in Hst' as (Hf & Ht & resp & -> & Hok); [|assumption..].
      split.
      * intros Hrest; exists [], t, resp, tl; repeat split; assumption.
      * intros ([|e0 tl0] & t0 & resp0 & tl1 & H & Hat & Ht0 & Hok0 & Hrest).
        -- cbn in H; inversion H; subst; exact Hrest.
        -- exfalso; injection H as He0 H; subst e0.
           change (ph (run_events abort_message st' tl0) = AwaitFetch) in Hat.
           apply (never_back_to_fetch tl0 st'); [|exact Hat].
           unfold st'; rewrite (proj2 (step_to_await_text st t _ HI Hp));
             [discriminate|split; [exact Hf|split; [exact Ht|eauto]]].
    + rewrite (IH st' HI' Hst'); split.
      * intros (tl0 & t0 & resp & tl1 & H & Hat & Ht & Hok & Hrest).
        exists (e :: tl0), t0, resp, tl1; rewrite H; repeat split; assumption.
      * intros ([|e0 tl0] & t0 & resp & tl1 & H & Hat & Ht & Hok & Hrest).
        -- exfalso; injection H as He0 _; subst e; apply Hst'; unfold st'.
           apply step_to_await_text; [exact HI|exact Hp|].
           split; [exact Hat|split; [exact Ht|eauto]].
        -- injection H as He0 H; subst e0.
           exists tl0, t0, resp, tl1; repeat split; assumption.
Qed.

(** C5: provided the platform's own rejection messages differ from it,
    the call rejects with the empty-body error exactly when [fetch]
    resolves before the 5000 ms timeout with a success status and the
    first body outcome after it is a text whose trimmed form is empty
    (in particular the empty text). *)
Theorem empty_body_error_iff (tl : list (Z * net_event)) :
  abort_message <> empty_message ->
  Forall (fun e => platform_message_ok (snd e)) tl ->
  ph (run abort_message tl) = Settled (Err (Error empty_message)) <->
  exists tl0 t0 resp tl1 t body tl2,
    tl = tl0 ++ (t0, FetchResolved resp) :: tl1 ++ (t, TextResolved body) :: tl2 /\
    ph (run_events abort_message start tl0) = AwaitFetch /\ t0 < timeout_ms /\
    ok resp = true /\ Forall (fun e => is_text_event (snd e) = false) tl1 /\
    trim body = [].
Proof.
  intros Habort Hmsgs; unfold run.
  rewrite (run_empty_iff tl start Habort Inv_start Hmsgs) by discriminate.
  split.
  - intros (tl1' & t & body & tl2 & H & Hat & Hb).
    apply (await_text_iff tl1' start Inv_start) in Hat; [|discriminate].
    destruct Hat as (tl0 & t0 & resp & tl1 & H1 & Hf & Ht & Hok & Hrest).
    exists tl0, t0, resp, tl1, t, body, tl2.
    rewrite H, H1, <- app_assoc; cbn [app]; repeat split; assumption.
  - intros (tl0 & t0 & resp & tl1 & t & body & tl2 & H & Hf & Ht & Hok & Hrest & Hb).
    exists (tl0 ++ (t0, FetchResolved resp) :: tl1), t, body, tl2.
    split; [rewrite H, <- app_assoc; reflexivity|split; [|exact Hb]].
    apply (await_text_iff _ start Inv_start); [discriminate|].
    exists tl0, t0, resp, tl1; repeat split; assumption.
Qed.

End Facts.

End FetchFacts.

Module TypewriterFacts.
Import Text Binary64 Binary64Facts Typewriter TypewriterProps.

(** *** Timers only accumulate under the element writes *)

Lemma set_timeout_timers (w : world) (d : Z) (t : task) :
  timers (snd (set_timeout w d t)) = timers w ++ [mkTimer (next_id w) (next_id w) (clock w + Z.max 0 d) t].
Proof. reflexivity. Qed.

Lemma random_fields (w : world) :
  timers (snd (random w)) = timers w /\ clock (snd (random w)) = clock w /\
  next_id (snd (random w)) = next_id w.
Proof. unfold random; destruct (rng w); repeat split. Qed.

Lemma next_delay_fields (c : Z) (w : world) :
  timers (snd (next_delay c w)) = timers w /\ clock (snd (next_delay c w)) = clock w /\
  next_id (snd (next_delay c w)) = next_id w.
Proof.
  unfold next_delay.
  destruct (c =? 32); [repeat split|]; destruct (memZ c pause_class); [repeat split|];
    destruct (is_ascii_letter c); destruct (random w) as [r w'] eqn:E;
    pose proof (random_fields w) as Hf; rewrite E in Hf; exact Hf.
Qed.

Lemma startCursorBlink_timers (w : world) :
  timers (startCursorBlink w) =
  timers w ++ [mkTimer (next_id w) (next_id w) (clock w + 500) (BlinkTick true 0);
               mkTimer (S (next_id w)) (S (next_id w)) (clock w + 30000) (BlinkStop (next_id w))].
Proof. unfold startCursorBlink; cbn; now rewrite <- app_assoc. Qed.

Lemma typeNextChar_timers (text : list Z) (i : nat) (w : world) :
  exists extra, timers (typeNextChar text i w) = timers w ++ extra.
Proof.
  unfold typeNextChar.
  destruct (Nat.ltb i (length text)); [|rewrite startCursorBlink_timers; eauto].
  set (w1 := set_content w (firstn (S i) text)).
  destruct (next_delay (nth i text 0) w1) as [d w2] eqn:Ed.
  pose proof (next_delay_fields (nth i text 0) w1) as (Ht2 & _ & _); rewrite Ed in Ht2.
  cbn [snd] in Ht2.
  set (w3 := snd (set_timeout w2 (to_long d) (TypeTick text (S i)))).
  destruct (random w3) as [r w4] eqn:Er.
  pose proof (random_fields w3) as (Ht4 & _ & _); rewrite Er in Ht4; cbn [snd] in Ht4.
  assert (H4 : exists extra, timers w4 = timers w ++ extra).
  { rewrite Ht4; unfold w3; rewrite set_timeout_timers, Ht2; eauto. }
  destruct H4 as (extra & H4).
  destruct (Qlt_le_dec (fl (8 # 10)) r); [|eauto].
  rewrite set_timeout_timers; cbn [timers set_border]; rewrite H4, <- app_assoc; eauto.
Qed.

(** *** Claim C7 *)



(** *** Claim C8 *)

Lemma random_elem (w : world) :
  content (snd (random w)) = content w /\ border (snd (random w)) = border w /\
  typing (snd (random w)) = typing w.
Proof. unfold random; destruct (rng w); repeat split. Qed.

Lemma next_delay_elem (c : Z) (w : world) :
  content (snd (next_delay c w)) = content w /\ border (snd (next_delay c w)) = border w /\
  typing (snd (next_delay c w)) = typing w.
Proof.
  unfold next_delay.
  destruct (c =? 32); [repeat split|]; destruct (memZ c pause_class); [repeat split|];
    destruct (is_ascii_letter c); destruct (random w) as [r w'] eqn:E;
    pose proof (random_elem w) as Hf; rewrite E in Hf; exact Hf.
Qed.

(** A reveal tick writes the prefix of its own text, keeps the [typing]
    class, and either leaves the border as it was or shows the cursor with
    a flash-off timer due 80 ms later. *)
Lemma typeNextChar_reveal (text : list Z) (i : nat) (w : world) :
  (i < length text)%nat ->
  content (typeNextChar text i w) = firstn (S i) text /\
  typing (typeNextChar text i w) = typing w /\
  (border (typeNextChar text i w) = border w \/
   exists tm, In tm (timers (typeNextChar text i w)) /\ tm_task tm = FlashOff /\
              tm_due tm = clock w + 80).
Proof.
  intros Hi; unfold typeNextChar; rewrite (proj2 (Nat.ltb_lt _ _) Hi).
  set (w1 := set_content w (firstn (S i) text)).
  destruct (next_delay (nth i text 0) w1) as [d w2] eqn:Ed.
  pose proof (next_delay_fields (nth i text 0) w1) as (_ & Hc2 & _).
  pose proof (next_delay_elem (nth i text 0) w1) as (Hx2 & Hb2 & Hy2).
  rewrite Ed in Hc2, Hx2, Hb2, Hy2; cbn [snd] in Hc2, Hx2, Hb2, Hy2.
  set (w3 := snd (set_timeout w2 (to_long d) (TypeTick text (S i)))).
  destruct (random w3) as [r w4] eqn:Er.
  pose proof (random_fields w3) as (_ & Hc4 & _).
  pose proof (random_elem w3) as (Hx4 & Hb4 & Hy4).
  rewrite Er in Hc4, Hx4, Hb4, Hy4; cbn [snd] in Hc4, Hx4, Hb4, Hy4.
  destruct (Qlt_le_dec (fl (8 # 10)) r).
  - cbn [set_timeout snd content typing set_border timers].
    rewrite Hx4, Hy4; cbn [w3 set_timeout snd content typing]; rewrite Hx2, Hy2.
    split; [reflexivity|split; [reflexivity|right]].
    exists (mkTimer (next_id w4) (next_id w4) (clock w4 + Z.max 0 80) FlashOff).
    split; [apply in_or_app; right; now left|split; [reflexivity|]].
    cbn [tm_due]; rewrite Hc4; cbn [w3 set_timeout snd clock]; rewrite Hc2; reflexivity.
  - rewrite Hx4, Hy4, Hb4; cbn [w3 set_timeout snd content typing border].
    rewrite Hx2, Hy2, Hb2; split; [reflexivity|split; [reflexivity|left; reflexivity]].
Qed.

(** C8 (as the code has it): a call of [startTypewriterAnimation] clears
    the element and hides the cursor; for a non-empty text it adds the
    [typing] class and reveals the first code unit at once, and if that
    reveal shows the cursor, a timer due 80 ms later hides it.  Every
    timer already pending (reveal ticks, cursor flashes, blink interval
    and its stop) stays scheduled, and a pending reveal tick of an earlier
    session, whenever it runs, writes a prefix of its own text. *)
Theorem render_keeps_pending_timers (text : list Z) (w : world) :
  incl (timers w) (timers (startTypewriterAnimation text w)) /\
  content (startTypewriterAnimation text w) = firstn 1 text /\
  (text = [] -> border (startTypewriterAnimation text w) = false) /\
  (text <> [] -> typing (startTypewriterAnimation text w) = true) /\
  (border (startTypewriterAnimation text w) = true ->
     exists tm, In tm (timers (startTypewriterAnimation text w)) /\
                tm_task tm = FlashOff /\ tm_due tm = clock w + 80) /\
  (forall tm txt i, In tm (timers w) -> tm_task tm = TypeTick txt i -> (i < length txt)%nat ->
     In tm (timers (startTypewriterAnimation text w)) /\
     forall w1, content (run_task tm w1) = firstn (S i) txt).
Proof.
  assert (Hincl : incl (timers w) (timers (startTypewriterAnimation text w))).
  { unfold startTypewriterAnimation.
    destruct (typeNextChar_timers text 0
      (set_typing (set_border (set_content w []) false) true)) as (extra & ->).
    intros x Hx; apply in_or_app; now left. }
  split; [exact Hincl|].
  assert (Hold : forall tm txt i, In tm (timers w) -> tm_task tm = TypeTick txt i ->
     (i < length txt)%nat ->
     In tm (timers (startTypewriterAnimation text w)) /\
     forall w1, content (run_task tm w1) = firstn (S i) txt).
  { intros tm txt i Hin Ht Hi; split; [now apply Hincl|].
    intros w1; unfold run_task; rewrite Ht; now apply typeNextChar_reveal. }
  destruct text as [|c text].
  - unfold startTypewriterAnimation, typeNextChar; cbn [length Nat.ltb Nat.leb].
    split; [reflexivity|split; [reflexivity|split; [intros []; reflexivity|split]]].
    + cbn; discriminate.
    + exact Hold.
  - assert (Hl : (0 < length (c :: text))%nat) by (cbn; lia).
    unfold startTypewriterAnimation.
    destruct (typeNextChar_reveal (c :: text) 0
      (set_typing (set_border (set_content w []) false) true) Hl) as (Hx & Hy & Hb).
    split; [exact Hx|split; [discriminate|split; [intros _; exact Hy|split; [|exact Hold]]]].
    intros Hbt; destruct Hb as [Hb|Hb]; [rewrite Hbt in Hb; discriminate|exact Hb].
Qed.

(** *** The blink loop over every run of the event loop *)






Lemma BInv_nil (n : nat) : BInv [] n.
Proof.
  split; [split; [apply NoDup_nil|apply Forall_nil]|split; [split|]].
  - intros st x iid [].
  - intros st iid [].
  - intros tm v c [].
Qed.

Lemma NoDup_map_eq (l : list timer) (x y : timer) :
  NoDup (map tm_id l) -> In x l -> In y l -> tm_id x = tm_id y -> x = y.
Proof.
  induction l as [|a l IH]; intros Hnd Hx Hy Hid; [contradiction|].
  inversion Hnd as [|? ? Hnot Hnd']; subst.
  destruct Hx as [<-|Hx], Hy as [<-|Hy]; auto.
  - exfalso; apply Hnot; rewrite Hid; now apply in_map.
  - exfalso; apply Hnot; rewrite <- Hid; now apply in_map.
Qed.

Lemma in_remove_timer (id : nat) (l : list timer) (x : timer) :
  In x (remove_timer id l) <-> In x l /\ tm_id x <> id.
Proof.
  unfold remove_timer; rewrite filter_In, negb_true_iff, Nat.eqb_neq; reflexivity.
Qed.

Lemma NoDup_map_remove (id : nat) (l : list timer) :
  NoDup (map tm_id l) -> NoDup (map tm_id (remove_timer id l)).
Proof.
  induction l as [|a l IH]; intros Hnd; cbn; [constructor|].
  inversion Hnd as [|? ? Hnot Hnd']; subst.
  destruct (negb (Nat.eqb (tm_id a) id)); cbn; [|now apply IH].
  constructor; [|now apply IH].
  intros Hin; apply Hnot; apply in_map_iff in Hin as (y & Hy & Hin).
  apply in_remove_timer in Hin as [Hin _]; rewrite <- Hy; now apply in_map.
Qed.

(** Dropping timers keeps [BInv] as long as no dropped timer is the stop of
    a kept interval. *)
Lemma BInv_sub (l l' : list timer) (n : nat) :
  BInv l n -> incl l' l -> NoDup (map tm_id l') ->
  (forall tm st v c, In tm l' -> tm_task tm = BlinkTick v c -> In st l ->
     tm_task st = BlinkStop (tm_id tm) -> In st l') ->
  BInv l' n.
Proof.
  intros [[Hnd Hlt] [[Hc Hd] Hb]] Hincl Hnd' Hkeep.
  split; [split; [exact Hnd'|]|split; [split|]].
  - rewrite Forall_forall in Hlt |- *; intros x Hx; apply Hlt, Hincl, Hx.
  - intros st x iid Hst Hx; apply Hc; apply Hincl; assumption.
  - intros st iid Hst; apply Hd, Hincl, Hst.
  - intros tm v c Htm Htask.
    destruct (Hb tm v c (Hincl tm Htm) Htask) as (st & Hst & Hrest).
    exists st; split; [apply (Hkeep tm st v c Htm Htask Hst), Hrest|exact Hrest].
Qed.

Lemma BInv_append_plain (l : list timer) (n : nat) (due : Z) (t : task) :
  BInv l n -> (forall iid, t <> BlinkStop iid) -> ~ is_blink_tick t ->
  BInv (l ++ [mkTimer n n due t]) (S n).
Proof.
  intros [[Hnd Hlt] [[Hc Hd] Hb]] Hnstop Hntick.
  rewrite Forall_forall in Hlt.
  split; [split|split; [split|]].
  - rewrite map_app; apply NoDup_app; [exact Hnd|repeat constructor; auto|].
    intros x Hx Hy; cbn in Hy; destruct Hy as [<-|[]].
    apply in_map_iff in Hx as (y & Hy & Hin); destruct (Hlt y Hin); lia.
  - apply Forall_app; split; [|repeat constructor; cbn; lia].
    rewrite Forall_forall; intros x Hx; destruct (Hlt x Hx); lia.
  - intros st x iid Hst Hx Htask Hid; apply in_app_or in Hst, Hx.
    destruct Hst as [Hst|[<-|[]]]; [|exfalso; exact (Hnstop iid Htask)].
    destruct Hx as [Hx|[<-|[]]]; [exact (Hc st x iid Hst Hx Htask Hid)|].
    cbn in Hid; specialize (Hd st iid Hst Htask); lia.
  - intros st iid Hst Htask; apply in_app_or in Hst.
    destruct Hst as [Hst|[<-|[]]]; [specialize (Hd st iid Hst Htask); lia|].
    exfalso; exact (Hnstop iid Htask).
  - intros tm v c Htm Htask; apply in_app_or in Htm.
    destruct Htm as [Htm|[<-|[]]]; [|exfalso; apply Hntick; cbn in Htask; rewrite Htask; exact I].
    destruct (Hb tm v c Htm Htask) as (st & Hst & Hrest).
    exists st; split; [apply in_or_app; now left|exact Hrest].
Qed.

Lemma BInv_append_blink (l : list timer) (n : nat) (now : Z) :
  BInv l n ->
  BInv (l ++ [mkTimer n n (now + 500) (BlinkTick true 0);
              mkTimer (S n) (S n) (now + 30000) (BlinkStop n)]) (S (S n)).
Proof.
  intros [[Hnd Hlt] [[Hc Hd] Hb]]; rewrite Forall_forall in Hlt.
  assert (Hold : forall x, In x l -> (tm_id x < n)%nat /\ (tm_seq x < n)%nat) by exact Hlt.
  split; [split|split; [split|]].
  - rewrite map_app; apply NoDup_app; [exact Hnd| |].
    + cbn; constructor; [intros [H|[]]; lia|repeat constructor; auto].
    + intros x Hx Hy; apply in_map_iff in Hx as (y & <- & Hin).
      destruct (Hold y Hin); cbn in Hy; lia.
  - apply Forall_app; split; [|repeat constructor; cbn; lia].
    rewrite Forall_forall; intros x Hx; destruct (Hold x Hx); lia.
  - intros st x iid Hst Hx Htask Hid; apply in_app_or in Hst, Hx.
    destruct Hst as [Hst|[<-|[<-|[]]]]; try discriminate.
    + specialize (Hd st iid Hst Htask).
      destruct Hx as [Hx|[<-|[<-|[]]]]; [exact (Hc st x iid Hst Hx Htask Hid)|exact I|].
      cbn in Hid; lia.
    + injection Htask as <-.
      destruct Hx as [Hx|[<-|[<-|[]]]]; [destruct (Hold x Hx); lia|exact I|].
      cbn in Hid; lia.
  - intros st iid Hst Htask; apply in_app_or in Hst.
    destruct Hst as [Hst|[<-|[<-|[]]]]; try discriminate.
    + specialize (Hd st iid Hst Htask); lia.
    + injection Htask as <-; lia.
  - intros tm v c Htm Htask; apply in_app_or in Htm.
    destruct Htm as [Htm|[<-|[<-|[]]]]; try discriminate.
    + destruct (Hb tm v c Htm Htask) as (st & Hst & Hrest).
      exists st; split; [apply in_or_app; now left|exact Hrest].
    + injection Htask as <- <-.
      exists (mkTimer (S n) (S n) (now + 30000) (BlinkStop n)); cbn.
      split; [apply in_or_app; right; right; now left|].
      repeat split; intros; lia.
Qed.


Lemma typeNextChar_BInv (text : list Z) (i : nat) (w : world) :
  BInvW w -> BInvW (typeNextChar text i w).
Proof.
  unfold BInvW, typeNextChar; intros H.
  destruct (Nat.ltb i (length text)).
  - set (w1 := set_content w (firstn (S i) text)).
    destruct (next_delay (nth i text 0) w1) as [d w2] eqn:Ed.
    pose proof (next_delay_fields (nth i text 0) w1) as (Ht2 & Hc2 & Hn2).
    rewrite Ed in Ht2, Hc2, Hn2; cbn [snd] in Ht2, Hc2, Hn2.
    set (w3 := snd (set_timeout w2 (to_long d) (TypeTick text (S i)))).
    assert (H3 : BInvW w3).
    { unfold BInvW, w3; rewrite set_timeout_timers; cbn [next_id set_timeout snd].
      rewrite Ht2, Hn2; apply BInv_append_plain; [exact H|discriminate|cbn; auto]. }
    destruct (random w3) as [r w4] eqn:Er.
    pose proof (random_fields w3) as (Ht4 & _ & Hn4); rewrite Er in Ht4, Hn4; cbn [snd] in Ht4, Hn4.
    assert (H4 : BInvW w4) by (unfold BInvW; rewrite Ht4, Hn4; exact H3).
    destruct (Qlt_le_dec (fl (8 # 10)) r); [|exact H4].
    unfold BInvW; rewrite set_timeout_timers; cbn [next_id set_timeout snd set_border timers].
    apply BInv_append_plain; [exact H4|discriminate|cbn; auto].
  - rewrite startCursorBlink_timers; apply BInv_append_blink, H.
Qed.

Lemma startTypewriterAnimation_BInv (text : list Z) (w : world) :
  BInvW w -> BInvW (startTypewriterAnimation text w).
Proof. intros H; apply typeNextChar_BInv, H. Qed.

Lemma earlier_spec (a b : timer) :
  earlier a b = true <->
  tm_due a < tm_due b \/ (tm_due a = tm_due b /\ (tm_seq a < tm_seq b)%nat).
Proof.
  unfold earlier; rewrite orb_true_iff, andb_true_iff, Z.ltb_lt, Z.eqb_eq, Nat.ltb_lt.
  reflexivity.
Qed.

Lemma earlier_false (a b : timer) :
  earlier a b = false <->
  tm_due b < tm_due a \/ (tm_due a = tm_due b /\ (tm_seq b <= tm_seq a)%nat).
Proof.
  destruct (earlier a b) eqn:E; split; try discriminate.
  - apply earlier_spec in E; lia.
  - intros _; destruct (Z.lt_trichotomy (tm_due b) (tm_due a)) as [H|[H|H]];
      [now left| |].
    + right; split; [lia|]; destruct (Nat.le_gt_cases (tm_seq b) (tm_seq a)); [lia|].
      assert (earlier a b = true) by (apply earlier_spec; lia); congruence.
    + assert (earlier a b = true) by (apply earlier_spec; lia); congruence.
  - reflexivity.
Qed.

Lemma earliest_in (l : list timer) (t : timer) : earliest l = Some t -> In t l.
Proof.
  induction l as [|a l IH]; cbn; [discriminate|].
  destruct (earliest l) as [u|]; [destruct (earlier u a)|]; intros H; injection H as <-;
    [right; now apply IH|now left|now left].
Qed.

Lemma earliest_min (l : list timer) (t : timer) :
  earliest l = Some t -> forall u, In u l -> earlier u t = false.
Proof.
  revert t; induction l as [|a l IH]; intros t; cbn; [discriminate|].
  destruct (earliest l) as [m|] eqn:Em.
  - specialize (IH m eq_refl).
    destruct (earlier m a) eqn:Ema; intros H; injection H as <-; intros u [<-|Hu].
    + apply earlier_spec in Ema; apply earlier_false; lia.
    + now apply IH.
    + apply earlier_false; lia.
    + specialize (IH u Hu); apply earlier_false in IH, Ema; apply earlier_false; lia.
  - intros H; injection H as <-; intros u [<-|Hu]; [apply earlier_false; lia|].
    destruct l; [contradiction|cbn in Em].
    destruct (earliest l); [destruct (earlier _ _)|]; discriminate.
Qed.

Lemma BInv_remove_non_stop (l : list timer) (n : nat) (tm0 : timer) :
  BInv l n -> In tm0 l -> (forall iid, tm_task tm0 <> BlinkStop iid) ->
  BInv (remove_timer (tm_id tm0) l) n.
Proof.
  intros HB Hin Hns; pose proof HB as [[Hnd _] _].
  apply (BInv_sub l); [exact HB| |apply NoDup_map_remove, Hnd|].
  - intros x Hx; apply in_remove_timer in Hx; tauto.
  - intros tm st v c Htm Htask Hst Hstask.
    apply in_remove_timer; split; [exact Hst|intros Hid].
    rewrite (NoDup_map_eq l st tm0 Hnd Hst Hin Hid) in Hstask.
    exact (Hns _ Hstask).
Qed.

(** The interval runs again 500 ms later; the earliest-first order rules
    out the toggle that would follow the 60th. *)
Lemma BInv_reschedule (l : list timer) (n : nat) (tm0 : timer) (v v' : bool) (c : nat) :
  BInv l n -> In tm0 l -> tm_task tm0 = BlinkTick v c ->
  (forall u, In u l -> earlier u tm0 = false) ->
  BInv (remove_timer (tm_id tm0) l ++
        [mkTimer (tm_id tm0) n (tm_due tm0 + 500) (BlinkTick v' (S c))]) (S n).
Proof.
  intros HB Hin Htask0 Hmin.
  assert (HB' : BInv (remove_timer (tm_id tm0) l) n)
    by (apply BInv_remove_non_stop; [exact HB|exact Hin|intros iid; rewrite Htask0; discriminate]).
  pose proof HB as [[Hnd Hlt] [[Hc Hd] Hb]]; rewrite Forall_forall in Hlt.
  destruct HB' as [[Hnd' Hlt'] [[Hc' Hd'] Hb']]; rewrite Forall_forall in Hlt'.
  destruct (Hb tm0 v c Hin Htask0) as (st0 & Hst0 & Hst0task & Hdue & Hc60 & Hs0 & Hs1).
  assert (Hst0' : In st0 (remove_timer (tm_id tm0) l)).
  { apply in_remove_timer; split; [exact Hst0|intros Hid].
    rewrite (NoDup_map_eq l st0 tm0 Hnd Hst0 Hin Hid) in Hst0task; congruence. }
  assert (Hc59 : c <> 59%nat).
  { intros ->; specialize (Hmin st0 Hst0); apply earlier_false in Hmin.
    specialize (Hs1 ltac:(lia)); cbn in Hdue; lia. }
  split; [split|split; [split|]].
  - rewrite map_app; apply NoDup_app; [exact Hnd'|repeat constructor; auto|].
    intros x Hx Hy; cbn in Hy; destruct Hy as [<-|[]].
    apply in_map_iff in Hx as (y & Hy & Hiny); apply in_remove_timer in Hiny; tauto.
  - apply Forall_app; split.
    + rewrite Forall_forall; intros x Hx; destruct (Hlt' x Hx); lia.
    + apply Forall_cons; [cbn; destruct (Hlt tm0 Hin); lia|apply Forall_nil].
  - intros st x iid Hst Hx Htask Hid; apply in_app_or in Hst, Hx.
    destruct Hst as [Hst|[<-|[]]]; [|discriminate].
    destruct Hx as [Hx|[<-|[]]]; [exact (Hc' st x iid Hst Hx Htask Hid)|exact I].
  - intros st iid Hst Htask; apply in_app_or in Hst.
    destruct Hst as [Hst|[<-|[]]]; [specialize (Hd' st iid Hst Htask); lia|discriminate].
  - intros tm w c' Htm Htask; apply in_app_or in Htm.
    destruct Htm as [Htm|[<-|[]]].
    + destruct (Hb' tm w c' Htm Htask) as (st & Hst & Hrest).
      exists st; split; [apply in_or_app; now left|exact Hrest].
    + cbn in Htask; injection Htask as <- <-.
      exists st0; split; [apply in_or_app; now left|].
      cbn [tm_id tm_due tm_seq]; split; [exact Hst0task|].
      split; [rewrite Hdue; lia|split; [lia|split; [discriminate|]]].
      intros _; destruct (Hlt st0 Hst0); lia.
Qed.

Lemma BInv_remove_stop (l : list timer) (n : nat) (tm0 : timer) (iid : nat) :
  BInv l n -> In tm0 l -> tm_task tm0 = BlinkStop iid ->
  BInv (remove_timer iid (remove_timer (tm_id tm0) l)) n.
Proof.
  intros HB Hin Htask0; pose proof HB as [[Hnd _] [[Hc _] _]].
  apply (BInv_sub l); [exact HB| |apply NoDup_map_remove, NoDup_map_remove, Hnd|].
  - intros x Hx; apply in_remove_timer in Hx as [Hx _]; apply in_remove_timer in Hx; tauto.
  - intros tm st v c Htm Htask Hst Hstask.
    apply in_remove_timer in Htm as [Htm Hid1]; apply in_remove_timer in Htm as [Htm Hid0].
    apply in_remove_timer; split; [apply in_remove_timer; split; [exact Hst|]|].
    + intros Hid; rewrite (NoDup_map_eq l st tm0 Hnd Hst Hin Hid) in Hstask.
      rewrite Htask0 in Hstask; injection Hstask as ->; contradiction.
    + intros Hid; specialize (Hc tm0 st iid Hin Hst Htask0 Hid).
      rewrite Hstask in Hc; exact Hc.
Qed.

Lemma step_BInv (w w' : world) : BInvW w -> step w = Some w' -> BInvW w'.
Proof.
  unfold step, BInvW; intros H.
  destruct (earliest (timers w)) as [tm0|] eqn:E; [|discriminate].
  intros Hw; injection Hw as <-.
  pose proof (earliest_in _ _ E) as Hin; pose proof (earliest_min _ _ E) as Hmin.
  unfold run_task; destruct (tm_task tm0) as [text i| |v c|iid] eqn:Ht.
  - apply typeNextChar_BInv; unfold BInvW; cbn.
    apply BInv_remove_non_stop; [exact H|exact Hin|intros iid; rewrite Ht; discriminate].
  - cbn; apply BInv_remove_non_stop; [exact H|exact Hin|intros iid; rewrite Ht; discriminate].
  - unfold blink; destruct (Nat.ltb 120 (S c)); cbn;
      apply BInv_reschedule with (v := v); assumption.
  - cbn; apply BInv_remove_stop; assumption.
Qed.

Lemma run_actions_BInv (acts : list action) : forall w,
  BInvW w -> BInvW (run_actions w acts).
Proof.
  induction acts as [|a acts IH]; intros w H; [exact H|]; cbn.
  apply IH; destruct a as [|text]; cbn.
  - destruct (step w) as [w'|] eqn:E; [exact (step_BInv w w' H E)|exact H].
  - apply startTypewriterAnimation_BInv, H.
Qed.

(** *** Claim C9 *)

(** C9: once the reveal index reaches the length of the text, the next
    tick starts the blink loop, an interval of 500 ms and a stop 30000 ms
    away; each toggle shows or hides the cursor and runs again 500 ms
    later; the stop clears the interval and hides the cursor; and in every
    run of the page from no pending timer, whatever renders and turns of
    the event loop happen, a pending blink interval has its stop pending,
    its [(c+1)]-th toggle falls at most 30000 ms after the loop began
    (at the stop's due time at the latest) and fewer than 60 toggles have
    run, so the loop ends by the 30 s stop, before 120 toggles. *)
Theorem blink_loop_stops_after_30s (w0 : world) (acts : list action) :
  timers w0 = [] ->
  (forall text w,
     timers (typeNextChar text (length text) w) =
     timers w ++ [mkTimer (next_id w) (next_id w) (clock w + 500) (BlinkTick true 0);
                  mkTimer (S (next_id w)) (S (next_id w)) (clock w + 30000)
                          (BlinkStop (next_id w))]) /\
  (forall tm v c w, tm_task tm = BlinkTick v c ->
     border (run_task tm w) = (if Nat.ltb 120 (S c) then false else v) /\
     timers (run_task tm w) =
       timers w ++ [mkTimer (tm_id tm) (next_id w) (clock w + 500)
                            (BlinkTick (negb v) (S c))]) /\
  (forall tm iid w, tm_task tm = BlinkStop iid ->
     border (run_task tm w) = false /\
     forall x, In x (timers (run_task tm w)) -> tm_id x <> iid) /\
  (forall tm v c, In tm (timers (run_actions w0 acts)) -> tm_task tm = BlinkTick v c ->
     exists st, In st (timers (run_actions w0 acts)) /\ tm_task st = BlinkStop (tm_id tm) /\
       tm_due tm = tm_due st - 30000 + 500 * Z.of_nat (S c) /\ (c < 60)%nat).
Proof.
  intros H0; split; [|split; [|split]].
  - intros text w; unfold typeNextChar; rewrite Nat.ltb_irrefl.
    exact (startCursorBlink_timers (set_typing w false)).
  - intros tm v c w Ht; unfold run_task; rewrite Ht; unfold blink.
    destruct (Nat.ltb 120 (S c)); split; reflexivity.
  - intros tm iid w Ht; unfold run_task; rewrite Ht; split; [reflexivity|].
    intros x Hx; apply in_remove_timer in Hx; tauto.
  - intros tm v c Htm Htask.
    assert (HB : BInvW (run_actions w0 acts))
      by (apply run_actions_BInv; unfold BInvW; rewrite H0; apply BInv_nil).
    destruct HB as (_ & _ & Hb).
    destruct (Hb tm v c Htm Htask) as (st & Hst & Hst_task & Hdue & Hc & _).
    exists st; repeat split; assumption.
Qed.

End TypewriterFacts.

Module QuoteFacts.
Import Text Fetch TextProps TextFacts QuoteProps.

Lemma space_32 : is_js_space 32 = true.
Proof. reflexivity. Qed.

Lemma collapse_aux_plain (b : bool) (l : list Z) : only_plain_spaces (collapse_aux b l).
Proof.
  revert b; induction l as [|c l IH]; intros b; cbn; [constructor|].
  destruct (is_js_space c) eqn:E.
  - destruct b; [apply IH|constructor; [now right|apply IH]].
  - constructor; [now left|apply IH].
Qed.

Lemma collapse_true_head (l : list Z) :
  match collapse_aux true l with c :: _ => c <> 32 | [] => True end.
Proof.
  induction l as [|c l IH]; cbn; [exact I|].
  destruct (is_js_space c) eqn:E; [exact IH|].
  intros ->; rewrite space_32 in E; discriminate.
Qed.

Lemma no_two_spaces_cons (a : Z) (x : list Z) :
  no_two_spaces (a :: x) =
  match x with d :: _ => negb ((a =? 32) && (d =? 32)) | [] => true end && no_two_spaces x.
Proof. destruct x; reflexivity. Qed.

Lemma collapse_aux_no_two (b : bool) (l : list Z) : no_two_spaces (collapse_aux b l) = true.
Proof.
  revert b; induction l as [|c l IH]; intros b; cbn; [reflexivity|].
  destruct (is_js_space c) eqn:E.
  - destruct b; [apply IH|].
    rewrite no_two_spaces_cons, IH, andb_true_r.
    pose proof (collapse_true_head l) as H.
    destruct (collapse_aux true l) as [|d r]; [reflexivity|].
    now rewrite (proj2 (Z.eqb_neq d 32) H), andb_false_r.
  - rewrite no_two_spaces_cons, IH, andb_true_r.
    assert (Hc : (c =? 32) = false)
      by (apply Z.eqb_neq; intros ->; rewrite space_32 in E; discriminate).
    destruct (collapse_aux false l); [reflexivity|]; now rewrite Hc.
Qed.

Lemma no_two_spaces_firstn (n : nat) (l : list Z) :
  no_two_spaces l = true -> no_two_spaces (firstn n l) = true.
Proof.
  revert n; induction l as [|a x IH]; intros [|n] H; try reflexivity.
  cbn [firstn]; rewrite no_two_spaces_cons in H |- *.
  apply andb_true_iff in H as [Hh Ht]; rewrite (IH n Ht), andb_true_r.
  destruct n as [|n]; [reflexivity|]; destruct x; [reflexivity|exact Hh].
Qed.

Lemma no_two_spaces_dots (l : list Z) :
  no_two_spaces l = true -> no_two_spaces (l ++ [46; 46; 46]) = true.
Proof.
  induction l as [|a x IH]; intros H; [reflexivity|].
  cbn [app]; rewrite no_two_spaces_cons in H |- *.
  apply andb_true_iff in H as [Hh Ht]; rewrite (IH Ht), andb_true_r.
  destruct x; [cbn; now rewrite andb_false_r|exact Hh].
Qed.

Lemma Forall_firstn_l {A : Type} (P : A -> Prop) (n : nat) (l : list A) :
  Forall P l -> Forall P (firstn n l).
Proof.
  revert n; induction l as [|a x IH]; intros [|n] H; cbn; try constructor.
  - now inversion H.
  - apply IH; now inversion H.
Qed.

Lemma head_ok_firstn (n : nat) (l : list Z) : head_ok l -> head_ok (firstn n l).
Proof. destruct n, l; cbn; auto. Qed.

Lemma firstn_S_snoc (l : list Z) : forall j,
  (j < length l)%nat -> firstn (S j) l = firstn j l ++ [nth j l 0].
Proof.
  induction l as [|a x IH]; intros j Hj; cbn in Hj; [lia|].
  destruct j as [|j]; [reflexivity|].
  change (firstn (S (S j)) (a :: x)) with (a :: firstn (S j) x).
  rewrite (IH j) by lia; reflexivity.
Qed.

Lemma cut_point_not_space (s : list Z) (j : nat) :
  includes_at s j = true -> (j < length s)%nat /\ is_js_space (nth j s 0) = false.
Proof.
  unfold includes_at; destruct (nth_error s j) as [c|] eqn:E; [|discriminate].
  intros Hc; split; [apply nth_error_Some; congruence|].
  rewrite (nth_error_nth s j 0 E).
  unfold memZ, cutPoints in Hc; cbn in Hc.
  repeat (apply orb_true_iff in Hc as [Hc|Hc]; [apply Z.eqb_eq in Hc; subst; reflexivity|]).
  discriminate.
Qed.

Lemma sanitize_one_line (body : list Z) : trim body <> [] -> one_line (sanitize body).
Proof.
  intros Hne; rewrite sanitize_eq.
  pose proof (trim_ends body) as Hends.
  set (t := trim body) in *.
  split; [|split; [apply collapse_ws_ends, replace_crlf_tab_ends, Hends|split]].
  - destruct Hends as [Hh _]; destruct t as [|c t']; [contradiction|].
    cbn in Hh |- *; rewrite (non_space_not_crlf_tab c Hh), Hh; discriminate.
  - apply collapse_aux_plain.
  - apply collapse_aux_no_two.
Qed.

Lemma truncate_one_line (s : list Z) : one_line s -> one_line (truncate s).
Proof.
  intros (Hne & [Hh Hr] & Hp & Hn); unfold truncate.
  change maxLength with 60%nat; change (60 - 10)%nat with 50%nat;
    change (60 - 3)%nat with 57%nat.
  destruct (Nat.ltb_spec 60 (length s)) as [Hlt|Hge];
    [|exact (conj Hne (conj (conj Hh Hr) (conj Hp Hn)))].
  destruct (scan_cut_range s 10 50) as [H|(k & Hk & Hin & H)]; rewrite H.
  - change (0 <? -1) with false; cbv iota.
    destruct s as [|c s']; [contradiction|].
    split; [destruct s'; discriminate|].
    split; [split|split].
    + exact Hh.
    + rewrite rev_app_distr; reflexivity.
    + apply Forall_app; split; [now apply Forall_firstn_l|].
      repeat constructor; left; reflexivity.
    + now apply no_two_spaces_dots, no_two_spaces_firstn.
  - replace (0 <? Z.of_nat (50 + k + 1)) with true
      by (symmetry; apply Z.ltb_lt; lia).
    rewrite Nat2Z.id.
    destruct (cut_point_not_space s (50 + k) Hin) as [Hj Hsp].
    replace (50 + k + 1)%nat with (S (50 + k)) by lia.
    split; [|split; [split|split]].
    + rewrite firstn_S_snoc by exact Hj; intros E; apply app_eq_nil in E as [_ E]; discriminate.
    + now apply head_ok_firstn.
    + rewrite firstn_S_snoc, rev_app_distr by exact Hj; exact Hsp.
    + now apply Forall_firstn_l.
    + now apply no_two_spaces_firstn.
Qed.

End QuoteFacts.

Module FetchExtra.
Import Text Fetch FetchProps FetchFacts QuoteProps QuoteFacts.

Section Calls.

Variable abort_message : string.

Lemma ok_from_body_start : ok_from_body start.
Proof. intros q H; discriminate H. Qed.

Lemma ok_from_body_fail (st : fstate) (msg : string) : ok_from_body (fail st msg).
Proof. intros q H; discriminate H. Qed.

Lemma ok_from_body_fire_timer (st : fstate) :
  ok_from_body st -> ok_from_body (fire_timer abort_message st).
Proof.
  unfold fire_timer; intros H q; destruct (ph st) eqn:E; cbn; try discriminate.
  intros Hq; apply H; now rewrite E.
Qed.

Lemma ok_from_body_after_text (st : fstate) (body : list Z) :
  ok_from_body (after_text st body).
Proof.
  unfold after_text.
  destruct ((match body with [] => true | _ => false end)
            || (length (trim body) =? 0)%nat) eqn:E; [apply ok_from_body_fail|].
  intros q Hq; cbn in Hq; injection Hq as <-; exists body; split; [|reflexivity].
  apply orb_false_iff in E as [_ E]; intros Ht; rewrite Ht in E; discriminate.
Qed.

Lemma ok_from_body_deliver (st : fstate) (ev : net_event) :
  ok_from_body st -> ok_from_body (deliver st ev).
Proof.
  intros H; unfold deliver.
  destruct (ph st) eqn:E; destruct ev; try exact H;
    try apply ok_from_body_fail; try apply ok_from_body_after_text.
  destruct (ok r); [intros q Hq; discriminate Hq|apply ok_from_body_fail].
Qed.

Lemma ok_from_body_step_at (st : fstate) (e : Z * net_event) :
  ok_from_body st -> ok_from_body (step_at abort_message st e).
Proof.
  intros H; unfold step_at, advance; apply ok_from_body_deliver.
  destruct (timer st); [destruct (_ <=? _)|]; auto using ok_from_body_fire_timer.
Qed.

Lemma ok_from_body_run (tl : list (Z * net_event)) : ok_from_body (run abort_message tl).
Proof.
  unfold run, finish.
  assert (H : forall st, ok_from_body st -> ok_from_body (run_events abort_message st tl)).
  { induction tl as [|e tl IH]; intros st Hst; [exact Hst|].
    apply IH, ok_from_body_step_at, Hst. }
  specialize (H start ok_from_body_start).
  destruct (timer _); auto using ok_from_body_fire_timer.
Qed.

(** An event before the timeout at the start of a call finds [fetch]
    pending and the timeout armed. *)
Lemma advance_start (t : Z) : t < timeout_ms -> advance abort_message t start = start.
Proof.
  intros Ht; unfold advance; cbn [timer start].
  replace (timeout_ms <=? t) with false by (symmetry; apply Z.leb_gt; exact Ht).
  reflexivity.
Qed.

Lemma run_after_settled (e : Z * net_event) (rest : list (Z * net_event)) (r : result) :
  ph (step_at abort_message start e) = Settled r ->
  timer (step_at abort_message start e) = None ->
  ph (run abort_message (e :: rest)) = Settled r.
Proof.
  intros Hp Ht; unfold run; cbn [run_events fold_left].
  fold (run_events abort_message (step_at abort_message start e) rest).
  rewrite (settled_run_events abort_message _ r rest Hp Ht).
  unfold finish; now rewrite Ht.
Qed.

(** a response with a status outside 200-299 that arrives before the
    timeout makes the call reject with [HTTP <status>: <statusText>],
    whatever happens afterwards. *)
Theorem http_error_rejects (t : Z) (r : response) (rest : list (Z * net_event)) :
  t < timeout_ms -> ok r = false ->
  ph (run abort_message ((t, FetchResolved r) :: rest)) = Settled (Err (Error (http_message r))).
Proof.
  intros Ht Hok; apply run_after_settled;
    unfold step_at; cbn [fst snd]; rewrite advance_start by exact Ht;
    unfold deliver; cbn [ph start]; rewrite Hok; reflexivity.
Qed.

(** a network failure of [fetch] before the timeout makes the call
    reject with an [Error] carrying the same message. *)
Theorem network_error_keeps_message (t : Z) (msg : string) (rest : list (Z * net_event)) :
  t < timeout_ms ->
  ph (run abort_message ((t, FetchRejected msg) :: rest)) = Settled (Err (Error msg)).
Proof.
  intros Ht; apply run_after_settled;
    unfold step_at; cbn [fst snd]; rewrite advance_start by exact Ht; reflexivity.
Qed.

(** once a successful response has arrived before the timeout, the
    timeout is cleared and the body read has no deadline: however late a
    body that is not blank arrives, the call resolves with its cleaned and
    truncated text. *)
Theorem late_body_still_resolves (t1 t2 : Z) (r : response) (body : list Z)
    (rest : list (Z * net_event)) :
  t1 < timeout_ms -> ok r = true -> trim body <> [] ->
  ph (run abort_message ((t1, FetchResolved r) :: (t2, TextResolved body) :: rest))
    = Settled (Ok (display_quote body)).
Proof.
  intros Ht Hok Hb.
  assert (H1 : step_at abort_message start (t1, FetchResolved r) = mkFState AwaitText None false).
  { unfold step_at; cbn [fst snd]; rewrite advance_start by exact Ht;
      unfold deliver; cbn [ph start]; rewrite Hok; reflexivity. }
  assert (H2 : step_at abort_message (mkFState AwaitText None false) (t2, TextResolved body)
               = mkFState (Settled (Ok (display_quote body))) None false).
  { unfold step_at, advance; cbn [timer fst snd]; unfold deliver; cbn [ph].
    unfold after_text.
    replace ((match body with [] => true | _ => false end)
             || (length (trim body) =? 0)%nat) with false; [reflexivity|].
    symmetry; apply orb_false_iff; split.
    - destruct body; [contradiction|reflexivity].
    - apply Nat.eqb_neq; intros E; apply length_zero_iff_nil in E; contradiction. }
  unfold run; cbn [run_events fold_left]; rewrite H1, H2.
  fold (run_events abort_message (mkFState (Settled (Ok (display_quote body))) None false) rest).
  rewrite (settled_run_events abort_message
    (mkFState (Settled (Ok (display_quote body))) None false) (Ok (display_quote body))
    rest eq_refl eq_refl).
  reflexivity.
Qed.

(** whatever the network does, a quote the call resolves with is fit
    for one line: not empty, no white space at either end, and no white
    space but single plain spaces. *)
Theorem resolved_quote_is_one_line (tl : list (Z * net_event)) (q : list Z) :
  ph (run abort_message tl) = Settled (Ok q) -> one_line q.
Proof.
  intros H; destruct (ok_from_body_run tl q H) as (body & Hb & ->).
  apply truncate_one_line, sanitize_one_line, Hb.
Qed.

End Calls.

End FetchExtra.

Module ConfigExtra.
Import Binary64 Binary64Facts FetchConfig.

(** the endpoint lookup never reads past the end of [apiConfigs]: for
    every double [r] in [0, 1) (every such double is at most 1 - 2^-53),
    the rounded product [r * 5] stays below 5, so
    [apiConfigs[Math.floor(Math.random() * apiConfigs.length)]] is one of
    the five configurations and never [undefined]. *)
Theorem randomConfig_defined (r : Q) :
  (0 <= r)%Q -> (r <= 1 - (1 # 9007199254740992))%Q ->
  exists c, randomConfig r = Some c.
Proof.
  intros H0 H1.
  unfold randomConfig, js_index.
  change (inject_Z (Z.of_nat (length apiConfigs))) with (5 # 1).
  assert (E0 : (fl 0 == 0)%Q) by (vm_compute; reflexivity).
  assert (Etop : (fl ((1 - (1 # 9007199254740992)) * 5) == 5 - (1 # 1125899906842624))%Q)
    by (vm_compute; reflexivity).
  destruct (fl_between 0 ((1 - (1 # 9007199254740992)) * 5) (r * (5 # 1)))
    as [Hlo Hhi]; [lra|lra|].
  remember (fl (r * (5 # 1))) as x eqn:Ex; clear Ex.
  assert (Hf0 : 0 <= Qfloor x).
  { change 0 with (Qfloor 0); apply Qfloor_resp_le; lra. }
  assert (Hf4 : Qfloor x < 5).
  { rewrite Zlt_Qlt; apply Qle_lt_trans with x; [apply Qfloor_le|].
    change (inject_Z 5) with (5 # 1); lra. }
  remember (Qfloor x) as k eqn:Ek; clear Ek.
  clear - Hf0 Hf4.
  replace (k <? 0) with false by (symmetry; apply Z.ltb_ge; lia).
  destruct (nth_error apiConfigs (Z.to_nat k)) as [c|] eqn:E; [exists c; reflexivity|].
  apply nth_error_None in E; cbn in E; lia.
Qed.

End ConfigExtra.

Module SessionFacts.
Import Text Binary64 Typewriter TypewriterProps TypewriterFacts SessionProps.

Lemma random_shape (w : world) :
  exists rs, snd (random w) =
    mkWorld (content w) (border w) (typing w) (timers w) (clock w) (next_id w) rs.
Proof. destruct w as [c b t l k n [|r rs]]; cbn; eexists; reflexivity. Qed.

Lemma next_delay_shape (c : Z) (w : world) :
  exists rs, snd (next_delay c w) =
    mkWorld (content w) (border w) (typing w) (timers w) (clock w) (next_id w) rs.
Proof.
  unfold next_delay.
  destruct (c =? 32); [exists (rng w); now destruct w|].
  destruct (memZ c pause_class); [exists (rng w); now destruct w|].
  destruct (is_ascii_letter c); destruct (random w) as [r w'] eqn:E;
    destruct (random_shape w) as (rs & Hs); rewrite E in Hs; exists rs; exact Hs.
Qed.

Lemma ids_fresh_append (l : list timer) (n : nat) (d : Z) (t : task) :
  ids_fresh l n -> ids_fresh (l ++ [mkTimer n n d t]) (S n).
Proof.
  intros [Hnd Hlt]; rewrite Forall_forall in Hlt; split.
  - rewrite map_app; apply NoDup_app; [exact Hnd|repeat constructor; auto|].
    intros x Hx Hy; cbn in Hy; destruct Hy as [<-|[]].
    apply in_map_iff in Hx as (y & Hy & Hin); destruct (Hlt y Hin); lia.
  - apply Forall_app; split; [|repeat constructor; cbn; lia].
    rewrite Forall_forall; intros x Hx; destruct (Hlt x Hx); lia.
Qed.

Lemma ids_fresh_remove (id : nat) (l : list timer) (n : nat) :
  ids_fresh l n -> ids_fresh (remove_timer id l) n.
Proof.
  intros [Hnd Hlt]; split; [now apply NoDup_map_remove|].
  rewrite Forall_forall in Hlt |- *; intros x Hx; apply in_remove_timer in Hx as [Hx _].
  now apply Hlt.
Qed.

Lemma count_ticks_app (a b : list timer) :
  count_ticks (a ++ b) = (count_ticks a + count_ticks b)%nat.
Proof. unfold count_ticks; now rewrite filter_app, length_app. Qed.

Lemma filter_keep_all {A : Type} (f : A -> bool) (l : list A) :
  (forall x, In x l -> f x = true) -> filter f l = l.
Proof.
  induction l as [|a l IH]; intros H; cbn; [reflexivity|].
  rewrite (H a (or_introl eq_refl)), IH; [reflexivity|]; intros x Hx; apply H; now right.
Qed.

Lemma remove_split (l : list timer) (tm : timer) :
  NoDup (map tm_id l) -> In tm l ->
  exists a b, l = a ++ tm :: b /\ remove_timer (tm_id tm) l = a ++ b.
Proof.
  intros Hnd Hin; destruct (in_split tm l Hin) as (a & b & ->).
  exists a, b; split; [reflexivity|].
  rewrite map_app in Hnd; cbn in Hnd; apply NoDup_remove_2 in Hnd.
  unfold remove_timer; rewrite filter_app; cbn [filter].
  rewrite Nat.eqb_refl; cbn [negb].
  assert (Hk : forall x, In x (a ++ b) -> negb (Nat.eqb (tm_id x) (tm_id tm)) = true).
  { intros x Hx; apply negb_true_iff, Nat.eqb_neq; intros E; apply Hnd.
    rewrite <- map_app, <- E; now apply in_map. }
  rewrite !filter_keep_all; [reflexivity| |];
    intros x Hx; apply Hk, in_or_app; auto.
Qed.

(** One reveal of [typeNextChar] inside the text. *)
Lemma typeNextChar_tick (txt : list Z) (k : nat) (w : world) :
  (k < length txt)%nat ->
  content (typeNextChar txt k w) = firstn (S k) txt /\
  typing (typeNextChar txt k w) = typing w /\
  exists extra, timers (typeNextChar txt k w) = timers w ++ extra /\
    (length extra <= 2)%nat /\
    Forall (fun tm => tm_task tm = FlashOff \/ tm_task tm = TypeTick txt (S k)) extra /\
    count_ticks extra = 1%nat /\
    (ids_fresh (timers w) (next_id w) ->
     ids_fresh (timers (typeNextChar txt k w)) (next_id (typeNextChar txt k w))).
Proof.
  intros Hk; unfold typeNextChar.
  replace (Nat.ltb k (length txt)) with true by (symmetry; apply Nat.ltb_lt, Hk).
  set (w1 := set_content w (firstn (S k) txt)).
  destruct (next_delay (nth k txt 0) w1) as [d w2] eqn:Ed.
  destruct (next_delay_shape (nth k txt 0) w1) as (rs2 & H2); rewrite Ed in H2; cbn [snd] in H2.
  subst w2.
  set (w3 := snd (set_timeout _ (to_long d) (TypeTick txt (S k)))).
  destruct (random w3) as [r w4] eqn:Er.
  destruct (random_shape w3) as (rs4 & H4); rewrite Er in H4; cbn [snd] in H4; subst w4.
  destruct (Qlt_le_dec (fl (8 # 10)) r).
  - cbn; split; [reflexivity|split; [reflexivity|]].
    eexists; split; [rewrite <- app_assoc; reflexivity|].
    split; [cbn; lia|split; [|split; [reflexivity|]]].
    { apply Forall_cons; [right; reflexivity|apply Forall_cons; [left; reflexivity|apply Forall_nil]]. }
    intros Hf; rewrite <- app_assoc; cbn.
    change (?l ++ [?x; ?y]) with (l ++ [x] ++ [y]); rewrite app_assoc.
    apply ids_fresh_append, ids_fresh_append, Hf.
  - cbn; split; [reflexivity|split; [reflexivity|]].
    eexists; split; [reflexivity|].
    split; [cbn; lia|split; [|split; [reflexivity|]]].
    { apply Forall_cons; [right; reflexivity|apply Forall_nil]. }
    intros Hf; apply ids_fresh_append, Hf.
Qed.

Lemma Forall_remove (P : timer -> Prop) (id : nat) (l : list timer) :
  Forall P l -> Forall P (remove_timer id l).
Proof.
  rewrite !Forall_forall; intros H x Hx; apply in_remove_timer in Hx as [Hx _]; now apply H.
Qed.

Lemma session_step (txt : list Z) (w w' : world) :
  typing_session txt w -> step w = Some w' ->
  (length (content w) <= length (content w'))%nat /\
  ((typing_session txt w' /\ (session_potential txt w' < session_potential txt w)%nat)
   \/ typing_done txt w').
Proof.
  intros (Hty & Hlen & Hpre & Hall & Hcnt & [Hnd Hlt]) Hs.
  unfold step in Hs; destruct (earliest (timers w)) as [tm|] eqn:He; [|discriminate].
  injection Hs as <-.
  pose proof (earliest_in _ _ He) as Hin.
  destruct (remove_split _ _ Hnd Hin) as (a & b & Hl & Hr).
  rewrite Hr.
  assert (Hfresh : ids_fresh (a ++ b) (next_id w))
    by (rewrite <- Hr; apply ids_fresh_remove; split; assumption).
  rewrite Hl in Hall, Hcnt.
  apply Forall_app in Hall as [Hall_a Hall_tb]; inversion Hall_tb as [|? ? Htm Hall_b]; subst.
  assert (Hab : Forall (fun x => tm_task x = FlashOff \/ tm_task x = TypeTick txt (length (content w))) (a ++ b))
    by (apply Forall_app; split; assumption).
  assert (Hcnt2 : (count_ticks (a ++ b) + (if is_type_tick (tm_task tm) then 1 else 0))%nat = 1%nat).
  { revert Hcnt; rewrite !count_ticks_app; unfold count_ticks; cbn [filter].
    destruct (is_type_tick (tm_task tm)); cbn [length]; lia. }
  clear Hcnt.
  assert (Hlen_l : length (timers w) = S (length (a ++ b)))
    by (rewrite Hl, !length_app; cbn; lia).
  unfold session_potential; rewrite Hlen_l.
  destruct Htm as [Hf|Ht].
  - (* a flash of the border ends *)
    unfold run_task; rewrite Hf; unfold set_border, set_clock, set_timers;
      cbn [content typing timers next_id].
    split; [lia|left].
    split; [|lia].
    split; [exact Hty|split; [exact Hlen|split; [exact Hpre|split; [exact Hab|split]]]].
    + cbn -[count_ticks]; rewrite Hf in Hcnt2; cbn [is_type_tick] in Hcnt2; lia.
    + exact Hfresh.
  - (* the pending [typeNextChar] runs *)
    assert (Hab0 : Forall (fun x => tm_task x = FlashOff) (a ++ b)).
    { assert (Hz : count_ticks (a ++ b) = 0%nat)
        by (rewrite Ht in Hcnt2; cbn [is_type_tick] in Hcnt2; lia).
      rewrite Forall_forall in Hab |- *; intros x Hx.
      destruct (Hab x Hx) as [Hx'|Hx']; [exact Hx'|exfalso].
      unfold count_ticks in Hz; apply length_zero_iff_nil in Hz.
      assert (Hinf : In x (filter (fun tm => is_type_tick (tm_task tm)) (a ++ b)))
        by (apply filter_In; split; [exact Hx|now rewrite Hx']).
      rewrite Hz in Hinf; exact Hinf. }
    unfold run_task; rewrite Ht.
    set (wr := set_clock (set_timers w (a ++ b)) (tm_due tm)).
    destruct (Nat.ltb_spec (length (content w)) (length txt)) as [Hk|Hk].
    + destruct (typeNextChar_tick txt (length (content w)) wr Hk)
        as (Hc' & Ht' & extra & Htm' & Hext & Hallx & Hcx & Hf').
      unfold typing_session; rewrite Hc'; rewrite length_firstn; split; [lia|left].
      replace (Nat.min (S (length (content w))) (length txt)) with (S (length (content w))) by lia.
      split.
      * split; [rewrite Ht'; exact Hty|split; [lia|split; [|split; [|split]]]].
        -- reflexivity.
        -- rewrite Htm'; apply Forall_app; split.
           ++ cbn; rewrite Forall_forall in Hab0 |- *; intros x Hx; left; now apply Hab0.
           ++ exact Hallx.
        -- rewrite Htm', count_ticks_app, Hcx.
           assert (Hz : count_ticks (a ++ b) = 0%nat)
             by (rewrite Ht in Hcnt2; cbn [is_type_tick] in Hcnt2; lia).
           cbn -[count_ticks]; rewrite Hz; reflexivity.
        -- apply Hf'; exact Hfresh.
      * rewrite Htm', length_app; cbn [timers wr set_clock set_timers]; lia.
    + assert (Heq : length (content w) = length txt) by lia.
      unfold typeNextChar; replace (Nat.ltb (length (content w)) (length txt)) with false
        by (symmetry; apply Nat.ltb_ge; lia).
      split; [unfold startCursorBlink; cbn; lia|right].
      split; [unfold startCursorBlink; reflexivity|split].
      * unfold startCursorBlink; cbn; rewrite Hpre, Heq; apply firstn_all.
      * rewrite startCursorBlink_timers; cbn.
        apply Forall_app; split; [|repeat constructor].
        rewrite Forall_forall in Hab0 |- *; intros x Hx; now rewrite (Hab0 x Hx).
Qed.

Lemma done_step (txt : list Z) (w w' : world) :
  typing_done txt w -> step w = Some w' -> typing_done txt w'.
Proof.
  intros (Hty & Hc & Hall) Hs.
  unfold step in Hs; destruct (earliest (timers w)) as [tm|] eqn:He; [|discriminate].
  injection Hs as <-.
  pose proof (earliest_in _ _ He) as Hin.
  assert (Hrem : Forall (fun x => is_type_tick (tm_task x) = false) (remove_timer (tm_id tm) (timers w)))
    by (apply Forall_remove, Hall).
  rewrite Forall_forall in Hall; specialize (Hall tm Hin).
  unfold run_task; destruct (tm_task tm) as [t i| |v c|iid] eqn:Et; [discriminate| | |].
  - split; [exact Hty|split; [exact Hc|exact Hrem]].
  - unfold blink; destruct (Nat.ltb 120 (S c)); cbn -[is_type_tick];
      (split; [exact Hty|split; [exact Hc|]]);
      apply Forall_app; (split; [exact Hrem|apply Forall_cons; [reflexivity|apply Forall_nil]]).
  - split; [exact Hty|split; [exact Hc|]]; cbn; apply Forall_remove, Hrem.
Qed.

Lemma render_start (txt : list Z) (w0 : world) :
  timers w0 = [] ->
  let w := startTypewriterAnimation txt w0 in
  (typing_session txt w /\ (session_potential txt w <= 2 * length txt)%nat) \/ typing_done txt w.
Proof.
  intros H0; cbn zeta; unfold startTypewriterAnimation.
  set (w1 := set_typing (set_border (set_content w0 []) false) true).
  destruct txt as [|c txt'].
  - right; unfold typeNextChar; cbn [length]; change (Nat.ltb 0 0) with false; cbv iota.
    split; [reflexivity|split; [reflexivity|]].
    rewrite startCursorBlink_timers.
    replace (timers (set_typing w1 false)) with (@nil timer) by (symmetry; exact H0).
    apply Forall_cons; [reflexivity|apply Forall_cons; [reflexivity|apply Forall_nil]].
  - left.
    destruct (typeNextChar_tick (c :: txt') 0 w1 ltac:(cbn; lia))
      as (Hc' & Ht' & extra & Htm' & Hext & Hallx & Hcx & Hf').
    assert (Hw1 : timers w1 = []) by exact H0.
    rewrite Hw1 in Htm'; cbn [app] in Htm'.
    unfold typing_session, session_potential; rewrite Hc', Ht', Htm'; cbn [firstn length].
    split; [split; [reflexivity|split; [lia|split; [reflexivity|split; [exact Hallx|split]]]]|].
    + exact Hcx.
    + rewrite <- Htm'; apply Hf'; rewrite Hw1; split; constructor.
    + lia.
Qed.

Lemma repeat_snoc {A : Type} (a : A) (n : nat) : repeat a (S n) = repeat a n ++ [a].
Proof.
  induction n as [|n IH]; [reflexivity|].
  change (a :: repeat a (S n) = (a :: repeat a n) ++ [a]); cbn [app]; f_equal; exact IH.
Qed.

Lemma session_run_S (txt : list Z) (w0 : world) (n : nat) :
  session_run txt w0 (S n) = act (session_run txt w0 n) Step.
Proof.
  unfold session_run, run_actions.
  change (Render txt :: repeat Step (S n)) with ([Render txt] ++ repeat Step (S n)).
  rewrite repeat_snoc, app_assoc, fold_left_app; reflexivity.
Qed.

Lemma session_count_pos (txt : list Z) (w : world) :
  typing_session txt w -> (1 <= session_potential txt w)%nat.
Proof.
  intros (_ & _ & _ & _ & Hcnt & _); unfold session_potential, count_ticks in *.
  pose proof (filter_length_le (fun tm => is_type_tick (tm_task tm)) (timers w)); lia.
Qed.

Lemma session_invariant (txt : list Z) (w0 : world) (n : nat) :
  timers w0 = [] ->
  let w := session_run txt w0 n in
  (typing_session txt w /\ (session_potential txt w + n <= 2 * length txt)%nat)
  \/ typing_done txt w.
Proof.
  intros H0; induction n as [|n IH]; cbn zeta in *.
  - change (session_run txt w0 0) with (startTypewriterAnimation txt w0).
    destruct (render_start txt w0 H0) as [[Hs Hp]|Hd]; [left; split; [exact Hs|lia]|now right].
  - rewrite session_run_S; unfold act.
    destruct IH as [[Hs Hp]|Hd].
    + destruct (step (session_run txt w0 n)) as [w'|] eqn:Hst.
      * destruct (session_step _ _ _ Hs Hst) as [_ [[Hs' Hp']|Hd']]; [left; split; [exact Hs'|lia]|now right].
      * exfalso; unfold step in Hst; destruct Hs as (_ & _ & _ & _ & Hcnt & _).
        destruct (timers (session_run txt w0 n)) as [|t l] eqn:Et;
          [unfold count_ticks in Hcnt; cbn in Hcnt; discriminate|].
        cbn in Hst; destruct (earliest l); [destruct (earlier _ _)|]; discriminate.
    + destruct (step (session_run txt w0 n)) as [w'|] eqn:Hst; [|now right].
      right; exact (done_step _ _ _ Hd Hst).
Qed.

Lemma session_or_done (txt : list Z) (w0 : world) (n : nat) :
  timers w0 = [] ->
  typing_session txt (session_run txt w0 n) \/ typing_done txt (session_run txt w0 n).
Proof. intros H0; destruct (session_invariant txt w0 n H0) as [[Hs _]|Hd]; auto. Qed.

Lemma session_prefix (txt : list Z) (w : world) :
  typing_session txt w \/ typing_done txt w ->
  (length (content w) <= length txt)%nat /\ content w = firstn (length (content w)) txt.
Proof.
  intros [(_ & Hl & Hp & _)|(_ & Hc & _)]; [split; assumption|].
  rewrite Hc; split; [lia|symmetry; apply firstn_all].
Qed.

Lemma session_grows (txt : list Z) (w0 : world) (n : nat) :
  timers w0 = [] ->
  (length (content (session_run txt w0 n)) <= length (content (session_run txt w0 (S n))))%nat.
Proof.
  intros H0; rewrite session_run_S; unfold act.
  destruct (step (session_run txt w0 n)) as [w'|] eqn:Hst; [|lia].
  destruct (session_invariant txt w0 n H0) as [[Hs _]|Hd].
  - exact (proj1 (session_step _ _ _ Hs Hst)).
  - now rewrite (proj1 (proj2 (done_step _ _ _ Hd Hst))), (proj1 (proj2 Hd)).
Qed.

(** on a page with no pending timer, a typing session only ever shows
    prefixes of its text, and each turn of the event loop keeps or extends
    the one shown: between two moments the earlier text is a prefix of the
    later one. *)
Theorem session_shows_growing_prefixes (txt : list Z) (w0 : world) (n m : nat) :
  timers w0 = [] -> (n <= m)%nat ->
  exists i j, (i <= j <= length txt)%nat /\
    content (session_run txt w0 n) = firstn i txt /\
    content (session_run txt w0 m) = firstn j txt.
Proof.
  intros H0 Hnm.
  destruct (session_prefix txt _ (session_or_done txt w0 n H0)) as [_ Hn].
  destruct (session_prefix txt _ (session_or_done txt w0 m H0)) as [Hm Hm'].
  exists (length (content (session_run txt w0 n))), (length (content (session_run txt w0 m))).
  split; [|split; assumption]; split; [|exact Hm].
  clear Hn Hm Hm'; induction Hnm as [|m Hnm IH]; [lia|].
  pose proof (session_grows txt w0 m H0); lia.
Qed.

(** on a page with no pending timer, a typing session is over within
    [2 * length txt] turns of the event loop: the whole text is shown, the
    [typing] class is removed and no [typeNextChar] is pending. *)
Theorem session_completes (txt : list Z) (w0 : world) (n : nat) :
  timers w0 = [] -> (2 * length txt <= n)%nat ->
  content (session_run txt w0 n) = txt /\ typing (session_run txt w0 n) = false.
Proof.
  intros H0 Hn.
  destruct (session_invariant txt w0 n H0) as [[Hs Hp]|(Hty & Hc & _)]; [|split; assumption].
  pose proof (session_count_pos _ _ Hs); lia.
Qed.

End SessionFacts.

Module PageFacts.
Import Text Fetch Typewriter Page PageProps SessionProps SessionFacts.

Ltac page_simpl :=
  unfold fresh_id, set_tw, set_ptimers, set_content, set_clock in *; cbv beta iota zeta;
  cbn [tw loading loadingDots loadingInterval ptimers fetching
       content border typing timers clock next_id rng p_task p_id] in *.

Lemma pearliest_in (l : list ptimer) (p : ptimer) : pearliest l = Some p -> In p l.
Proof.
  induction l as [|a l IH]; cbn; [discriminate|].
  destruct (pearliest l) as [u|]; [destruct (pearlier u a)|]; intros H; injection H as <-;
    [right; now apply IH|now left|now left].
Qed.

Lemma in_premove (id : nat) (l : list ptimer) (x : ptimer) :
  In x (premove id l) -> In x l /\ p_id x <> id.
Proof.
  unfold premove; rewrite filter_In; intros [Hx E]; split; [exact Hx|].
  apply negb_true_iff, Nat.eqb_neq in E; exact E.
Qed.

Lemma Forall_premove (P : ptimer -> Prop) (id : nat) (l : list ptimer) :
  Forall P l -> Forall P (premove id l).
Proof.
  rewrite !Forall_forall; intros H x Hx; apply in_premove in Hx; apply H, Hx.
Qed.

Lemma premove_all (id : nat) (l : list ptimer) :
  Forall (fun p => p_id p = id) l -> premove id l = [].
Proof.
  induction 1 as [|x l Hx _ IH]; [reflexivity|].
  unfold premove in *; cbn; rewrite Hx, Nat.eqb_refl; exact IH.
Qed.

Lemma pstep_cases (pg pg' : page) :
  pstep pg = Some pg' ->
  (exists p, In p (ptimers pg) /\
     pg' = run_ptask p (set_tw (set_ptimers pg (premove (p_id p) (ptimers pg)))
                         (set_clock (tw pg) (p_due p)))) \/
  (exists w', step (tw pg) = Some w' /\ pg' = set_tw pg w').
Proof.
  unfold pstep.
  assert (Hw : option_map (set_tw pg) (step (tw pg)) = Some pg' ->
               exists w', step (tw pg) = Some w' /\ pg' = set_tw pg w').
  { destruct (step (tw pg)) as [w'|]; cbn; [|discriminate].
    intros H; injection H as <-; exists w'; split; reflexivity. }
  destruct (pearliest (ptimers pg)) as [p|] eqn:Ep.
  - pose proof (pearliest_in _ _ Ep) as Hp.
    assert (Hq : forall x, Some x = Some pg' ->
       x = run_ptask p (set_tw (set_ptimers pg (premove (p_id p) (ptimers pg)))
                         (set_clock (tw pg) (p_due p))) ->
       exists p0, In p0 (ptimers pg) /\ pg' = run_ptask p0
         (set_tw (set_ptimers pg (premove (p_id p0) (ptimers pg))) (set_clock (tw pg) (p_due p0)))).
    { intros x H ->; injection H as <-; exists p; split; [exact Hp|reflexivity]. }
    destruct (earliest (timers (tw pg))) as [t|].
    + destruct (page_first p t); intros H; [left; exact (Hq _ H eq_refl)|right; exact (Hw H)].
    + intros H; left; exact (Hq _ H eq_refl).
  - destruct (earliest (timers (tw pg))) as [t|]; [intros H; right; exact (Hw H)|discriminate].
Qed.

Lemma step_no_timers (w : world) : timers w = [] -> step w = None.
Proof. intros H; unfold step; rewrite H; reflexivity. Qed.

Lemma setup_inv (w0 : world) : timers w0 = [] -> page_inv (setupTypewriterEffect w0).
Proof.
  intros H0; left; split; [reflexivity|].
  unfold loading_phase, setupTypewriterEffect, fresh_id; cbn.
  split; [exact H0|]; split; [reflexivity|]; split; [repeat constructor|].
  exists (S (next_id w0)).
  apply Forall_cons; [left; split; reflexivity|].
  apply Forall_cons; [right; split; [reflexivity|split; reflexivity]|apply Forall_nil].
Qed.

Lemma pstep_inv (pg pg' : page) : page_inv pg -> pstep pg = Some pg' -> page_inv pg'.
Proof.
  intros Hinv Hst; apply pstep_cases in Hst.
  destruct Hinv as [(Hl & Htw & Hc & Hd & sid & Hall)|(Hl & Hf & Hall)].
  - destruct Hst as [(p & Hp & ->)|(w' & Hst & _)];
      [|rewrite step_no_timers in Hst by exact Htw; discriminate].
    rewrite Forall_forall in Hall.
    destruct (Hall p Hp) as [[Ht Hid]|(Ht & Hid & Hfe)]; unfold run_ptask; rewrite Ht.
    + left; page_simpl; split; [exact Hl|].
      split; [exact Htw|]; split; [reflexivity|]; split; [apply Nat.mod_upper_bound; lia|].
      exists sid; apply Forall_app; split.
      * apply Forall_premove; rewrite Forall_forall; exact Hall.
      * apply Forall_cons; [left; split; [reflexivity|exact Hid]|apply Forall_nil].
    + destruct (random_shape (set_clock (tw pg) (p_due p))) as [rs Er].
      destruct (random _) as [x w1]; cbn in Er; subst w1.
      left; page_simpl; split; [exact Hl|].
      split; [exact Htw|]; split; [exact Hc|]; split; [exact Hd|].
      exists sid; rewrite Forall_forall; intros x' Hx.
      apply in_premove in Hx; destruct Hx as [Hx Hne].
      destruct (Hall x' Hx) as [H|(_ & Hid' & _)]; [left; exact H|].
      exfalso; apply Hne; rewrite Hid, Hid'; reflexivity.
  - right; destruct Hst as [(p & Hp & ->)|(w' & _ & ->)]; [|split; [exact Hl|split; assumption]].
    rewrite Forall_forall in Hall; pose proof (Hall p Hp) as Ht.
    unfold run_ptask; rewrite Ht; page_simpl.
    split; [exact Hl|split; [exact Hf|]].
    apply Forall_premove; rewrite Forall_forall; exact Hall.
Qed.

Lemma settle_inv (t : Z) (r : result) (pg : page) : page_inv pg -> page_inv (settle t r pg).
Proof.
  intros Hinv; unfold settle.
  destruct (fetching pg && nothing_due_before t pg) eqn:E; [|exact Hinv].
  apply andb_true_iff in E; destruct E as [Hfe _].
  destruct Hinv as [(Hl & Htw & Hc & Hd & sid & Hall)|(Hl & Hf & Hall)];
    [|rewrite Hf in Hfe; discriminate].
  assert (Hli : Forall (fun p => p_id p = loadingInterval pg) (ptimers pg)).
  { rewrite Forall_forall in *; intros x Hx.
    destruct (Hall x Hx) as [[_ H]|(_ & _ & H)]; [exact H|rewrite H in Hfe; discriminate]. }
  rewrite (premove_all _ _ Hli).
  right; destruct r as [[|c q]|e]; unfold fresh_id; cbn -[startTypewriterAnimation];
    (split; [reflexivity|split; [reflexivity|]]);
    repeat first [apply Forall_nil | apply Forall_cons; [reflexivity|]].
Qed.

Lemma pact_inv (pg : page) (a : paction) : page_inv pg -> page_inv (pact pg a).
Proof.
  intros H; destruct a as [|t r]; cbn.
  - destruct (pstep pg) as [pg'|] eqn:E; [exact (pstep_inv _ _ H E)|exact H].
  - exact (settle_inv t r pg H).
Qed.

Lemma run_page_inv (pg : page) (acts : list paction) :
  page_inv pg -> page_inv (run_page pg acts).
Proof.
  unfold run_page; revert pg; induction acts as [|a acts IH]; intros pg H; [exact H|].
  cbn; apply IH, pact_inv, H.
Qed.

Lemma reachable_inv (w0 : world) (acts : list paction) :
  timers w0 = [] -> page_inv (run_page (setupTypewriterEffect w0) acts).
Proof. intros H0; apply run_page_inv, setup_inv, H0. Qed.

(** while the subtitle has the [loading] class, it shows the loading
    text followed by at most three dots. *)
Theorem loading_shows_dots (w0 : world) (acts : list paction) :
  timers w0 = [] ->
  let pg := run_page (setupTypewriterEffect w0) acts in
  loading pg = true -> exists k, (k < 4)%nat /\ content (tw pg) = loadingText k.
Proof.
  intros H0 pg Hl; destruct (reachable_inv w0 acts H0) as [(_ & _ & Hc & Hd & _)|(Hl' & _)].
  - exists (loadingDots pg); split; assumption.
  - fold pg in Hl'; rewrite Hl in Hl'; discriminate.
Qed.

End PageFacts.

Module TypewriterWitnesses.
Import Text Typewriter TypewriterProps TypewriterFacts Scenarios.




(** C8: two calls on the same element, then one turn of the event loop:
    the pending reveal of the first text writes its second code unit over
    the second text. *)
Lemma earlier_session_keeps_writing :
  content (run_actions (blank_page []) [Render [65; 66]; Render [88; 89]]) = [88] /\
  In (mkTimer 0 0 70 (TypeTick [65; 66] 1))
     (timers (run_actions (blank_page []) [Render [65; 66]; Render [88; 89]])) /\
  content (run_actions (blank_page []) [Render [65; 66]; Render [88; 89]; Step])
    = [65; 66].
Proof.
  split; [vm_compute; reflexivity|split; [vm_compute; now left|vm_compute; reflexivity]].
Qed.


Lemma blink_loop_stops_after_30s_witness :
  timers (blank_page []) = [] /\
  content (run_actions (blank_page []) hi_run) = [72; 105; 33] /\
  timers (run_actions (blank_page []) hi_run) = [] /\
  border (run_actions (blank_page []) hi_run) = false /\
  (forall tm v c, In tm (timers (run_actions (blank_page []) hi_run)) ->
     tm_task tm = BlinkTick v c ->
     exists st, In st (timers (run_actions (blank_page []) hi_run)) /\
       tm_task st = BlinkStop (tm_id tm) /\
       tm_due tm = tm_due st - 30000 + 500 * Z.of_nat (S c) /\ (c < 60)%nat).
Proof.
  split; [reflexivity|split; [vm_compute; reflexivity|]].
  split; [vm_compute; reflexivity|split; [vm_compute; reflexivity|]].
  exact (proj2 (proj2 (proj2 (blink_loop_stops_after_30s (blank_page []) hi_run eq_refl)))).
Defined.

End TypewriterWitnesses.

Module FetchWitnesses.
Import Text Fetch FetchProps FetchFacts Scenarios.


(** The spec's scenario: a successful response whose body is the empty
    string makes the call reject with the empty-body error. *)
Lemma empty_body_error_iff_witness :
  chrome_abort_message <> empty_message /\
  Forall (fun e => platform_message_ok (snd e))
    [(120, FetchResolved ok_200); (130, TextResolved [])] /\
  ph (run chrome_abort_message [(120, FetchResolved ok_200); (130, TextResolved [])])
    = Settled (Err (Error empty_message)).
Proof.
  split; [intros H; inversion H|].
  split; [repeat constructor|].
  apply (empty_body_error_iff chrome_abort_message); [intros H; inversion H|repeat constructor|].
  exists [], 120, ok_200, [], 130, [], [].
  split; [reflexivity|split; [reflexivity|split; [reflexivity|]]].
  split; [reflexivity|split; [constructor|reflexivity]].
Defined.

(** The spec's scenario: a response arriving at 5001 ms, and its body,
    find the call already rejected by the timeout. *)
Lemma timeout_aborts_and_late_events_are_ignored_witness :
  Forall (fun e => timeout_ms <= fst e)
    [(5001, FetchResolved ok_200); (5002, TextResolved [72; 105])] /\
  run chrome_abort_message
      (firstn 2 [(5001, FetchResolved ok_200); (5002, TextResolved [72; 105])])
    = timed_out chrome_abort_message.
Proof.
  split; [repeat constructor; cbn; unfold timeout_ms; lia|].
  apply (proj2 (timeout_aborts_and_late_events_are_ignored chrome_abort_message
    [(5001, FetchResolved ok_200); (5002, TextResolved [72; 105])]
    ltac:(repeat constructor; cbn; unfold timeout_ms; lia))).
Defined.

End FetchWitnesses.

Module TextWitnesses.
Import Text TextProps TextFacts Scenarios.


Lemma truncate_cut_or_ellipsis_witness :
  (60 < length long_with_stop)%nat /\
  truncate long_with_stop = firstn 56 long_with_stop /\
  length (truncate long_with_stop) = 56%nat.
Proof.
  split; [vm_compute; lia|].
  apply (proj1 (truncate_cut_or_ellipsis long_with_stop ltac:(vm_compute; lia)) 55%nat).
  - lia.
  - vm_compute; reflexivity.
  - intros j Hj.
    assert (j = 50 \/ j = 51 \/ j = 52 \/ j = 53 \/ j = 54)%nat as Hcases by lia.
    repeat destruct Hcases as [->|Hcases]; vm_compute; try reflexivity.
    subst; vm_compute; reflexivity.
Defined.

End TextWitnesses.

Module ExtraWitnesses.
Import Text Fetch Typewriter FetchConfig Page TextProps QuoteProps SessionProps PageProps
  FetchExtra ConfigExtra SessionFacts PageFacts Scenarios.

Lemma http_error_rejects_witness :
  100 < timeout_ms /\ ok not_found = false /\
  ph (run chrome_abort_message [(100, FetchResolved not_found)])
    = Settled (Err (Error (http_message not_found))).
Proof.
  split; [unfold timeout_ms; lia|split; [reflexivity|]].
  apply (http_error_rejects chrome_abort_message 100 not_found []);
    [unfold timeout_ms; lia|reflexivity].
Defined.

Lemma network_error_keeps_message_witness :
  4999 < timeout_ms /\
  ph (run chrome_abort_message [(4999, FetchRejected failed_to_fetch)])
    = Settled (Err (Error failed_to_fetch)).
Proof.
  split; [unfold timeout_ms; lia|].
  apply (network_error_keeps_message chrome_abort_message 4999 failed_to_fetch []).
  unfold timeout_ms; lia.
Defined.

Lemma late_body_still_resolves_witness :
  100 < timeout_ms /\ ok ok_200 = true /\ trim hello_world <> [] /\
  ph (run chrome_abort_message [(100, FetchResolved ok_200); (60000, TextResolved hello_world)])
    = Settled (Ok (display_quote hello_world)).
Proof.
  assert (Hb : trim hello_world <> []) by (vm_compute; discriminate).
  split; [unfold timeout_ms; lia|split; [reflexivity|split; [exact Hb|]]].
  apply (late_body_still_resolves chrome_abort_message 100 60000 ok_200 hello_world []);
    [unfold timeout_ms; lia|reflexivity|exact Hb].
Defined.

Lemma resolved_quote_is_one_line_witness :
  ph (run chrome_abort_message [(100, FetchResolved ok_200); (200, TextResolved hello_world)])
    = Settled (Ok hello_world) /\ one_line hello_world.
Proof.
  assert (H : ph (run chrome_abort_message
                [(100, FetchResolved ok_200); (200, TextResolved hello_world)])
              = Settled (Ok hello_world)) by (vm_compute; reflexivity).
  split; [exact H|].
  exact (resolved_quote_is_one_line chrome_abort_message _ _ H).
Defined.

Lemma randomConfig_defined_witness :
  (0 <= top53)%Q /\ (top53 <= 1 - (1 # 9007199254740992))%Q /\
  (exists c, randomConfig top53 = Some c) /\
  randomConfig top53 = nth_error apiConfigs 4.
Proof.
  assert (H0 : (0 <= top53)%Q) by (unfold top53; lra).
  assert (H1 : (top53 <= 1 - (1 # 9007199254740992))%Q) by (unfold top53; lra).
  split; [exact H0|split; [exact H1|split]].
  - exact (randomConfig_defined top53 H0 H1).
  - vm_compute; reflexivity.
Defined.

Lemma session_shows_growing_prefixes_witness :
  timers (blank_page [0%Q; 0%Q]) = [] /\ (4 <= 9)%nat /\
  exists i j, (i <= j <= length hello_world)%nat /\
    content (session_run hello_world (blank_page [0%Q; 0%Q]) 4) = firstn i hello_world /\
    content (session_run hello_world (blank_page [0%Q; 0%Q]) 9) = firstn j hello_world.
Proof.
  split; [reflexivity|split; [lia|]].
  apply (session_shows_growing_prefixes hello_world (blank_page [0%Q; 0%Q]) 4 9);
    [reflexivity|lia].
Defined.

Lemma session_completes_witness :
  timers (blank_page []) = [] /\ (2 * length [72; 105; 33] <= 6)%nat /\
  content (session_run [72; 105; 33] (blank_page []) 6) = [72; 105; 33] /\
  typing (session_run [72; 105; 33] (blank_page []) 6) = false.
Proof.
  split; [reflexivity|split; [cbn; lia|]].
  apply (session_completes [72; 105; 33] (blank_page []) 6); [reflexivity|cbn; lia].
Defined.

Lemma loading_shows_dots_witness :
  timers (blank_page []) = [] /\
  loading (run_page (setupTypewriterEffect (blank_page [])) [PStep]) = true /\
  exists k, (k < 4)%nat /\
    content (tw (run_page (setupTypewriterEffect (blank_page [])) [PStep])) = loadingText k.
Proof.
  split; [reflexivity|split; [vm_compute; reflexivity|]].
  apply (loading_shows_dots (blank_page []) [PStep]); [reflexivity|vm_compute; reflexivity].
Defined.

End ExtraWitnesses.
